(** * bcrypt_pbkdf (crate [bcrypt-pbkdf], [src/lib.rs]): a shallow embedding

    The crate composes three external crates: [blowfish] (with its [bcrypt]
    feature), [sha2] and [pbkdf2] (with [crypto-mac]'s [Mac] trait).  Their
    code is embedded first, as the crate calls it, so that the functions of
    [lib.rs] ([bhash], the [Mac] implementation of [Bhash] and
    [bcrypt_pbkdf]) can be evaluated and reasoned about.

    Representation:
    - a [u32] of the Blowfish state is a primitive [int] holding a value
      below 2^32; [wrapping_add] masks the sum back to 32 bits;
    - the Blowfish tables are primitive arrays, as the fixed-size arrays
      [[u32; 18]] and [[[u32; 256]; 4]] of the crate;
    - a byte ([u8]) is a [Z] in [0, 256), a byte slice a [list Z];
    - a [u64] of SHA-512 is a [Z] in [0, 2^64), sums reduced modulo 2^64;
    - a Rust panic (failed [assert_eq!], failed [expect], out-of-range
      index, division by zero) is [None] of an [option]. *)

From Stdlib Require Import ZArith List Uint63 Lia Permutation.
From Stdlib Require PArray Strings.String Strings.Ascii.
Import (notations) String.

(** ** The [blowfish] crate (bcrypt feature) *)

Module Blowfish.

Import PArray.
Local Open Scope uint63_scope.

(** The P-array and S-boxes of the cipher: the hexadecimal digits of the
    fractional part of pi, P first, then the four S-boxes. *)
Definition P_INIT : array int :=
  [|
    0x243f6a88; 0x85a308d3; 0x13198a2e; 0x03707344; 0xa4093822; 0x299f31d0;
    0x082efa98; 0xec4e6c89; 0x452821e6; 0x38d01377; 0xbe5466cf; 0x34e90c6c;
    0xc0ac29b7; 0xc97c50dd; 0x3f84d5b5; 0xb5470917; 0x9216d5d9; 0x8979fb1b
  | 0 : int |].

Definition S0_INIT : array int :=
  [|
    0xd1310ba6; 0x98dfb5ac; 0x2ffd72db; 0xd01adfb7; 0xb8e1afed; 0x6a267e96;
    0xba7c9045; 0xf12c7f99; 0x24a19947; 0xb3916cf7; 0x0801f2e2; 0x858efc16;
    0x636920d8; 0x71574e69; 0xa458fea3; 0xf4933d7e; 0x0d95748f; 0x728eb658;
    0x718bcd58; 0x82154aee; 0x7b54a41d; 0xc25a59b5; 0x9c30d539; 0x2af26013;
    0xc5d1b023; 0x286085f0; 0xca417918; 0xb8db38ef; 0x8e79dcb0; 0x603a180e;
    0x6c9e0e8b; 0xb01e8a3e; 0xd71577c1; 0xbd314b27; 0x78af2fda; 0x55605c60;
    0xe65525f3; 0xaa55ab94; 0x57489862; 0x63e81440; 0x55ca396a; 0x2aab10b6;
    0xb4cc5c34; 0x1141e8ce; 0xa15486af; 0x7c72e993; 0xb3ee1411; 0x636fbc2a;
    0x2ba9c55d; 0x741831f6; 0xce5c3e16; 0x9b87931e; 0xafd6ba33; 0x6c24cf5c;
    0x7a325381; 0x28958677; 0x3b8f4898; 0x6b4bb9af; 0xc4bfe81b; 0x66282193;
    0x61d809cc; 0xfb21a991; 0x487cac60; 0x5dec8032; 0xef845d5d; 0xe98575b1;
    0xdc262302; 0xeb651b88; 0x23893e81; 0xd396acc5; 0x0f6d6ff3; 0x83f44239;
    0x2e0b4482; 0xa4842004; 0x69c8f04a; 0x9e1f9b5e; 0x21c66842; 0xf6e96c9a;
    0x670c9c61; 0xabd388f0; 0x6a51a0d2; 0xd8542f68; 0x960fa728; 0xab5133a3;
    0x6eef0b6c; 0x137a3be4; 0xba3bf050; 0x7efb2a98; 0xa1f1651d; 0x39af0176;
    0x66ca593e; 0x82430e88; 0x8cee8619; 0x456f9fb4; 0x7d84a5c3; 0x3b8b5ebe;
    0xe06f75d8; 0x85c12073; 0x401a449f; 0x56c16aa6; 0x4ed3aa62; 0x363f7706;
    0x1bfedf72; 0x429b023d; 0x37d0d724; 0xd00a1248; 0xdb0fead3; 0x49f1c09b;
    0x075372c9; 0x80991b7b; 0x25d479d8; 0xf6e8def7; 0xe3fe501a; 0xb6794c3b;
    0x976ce0bd; 0x04c006ba; 0xc1a94fb6; 0x409f60c4; 0x5e5c9ec2; 0x196a2463;
    0x68fb6faf; 0x3e6c53b5; 0x1339b2eb; 0x3b52ec6f; 0x6dfc511f; 0x9b30952c;
    0xcc814544; 0xaf5ebd09; 0xbee3d004; 0xde334afd; 0x660f2807; 0x192e4bb3;
    0xc0cba857; 0x45c8740f; 0xd20b5f39; 0xb9d3fbdb; 0x5579c0bd; 0x1a60320a;
    0xd6a100c6; 0x402c7279; 0x679f25fe; 0xfb1fa3cc; 0x8ea5e9f8; 0xdb3222f8;
    0x3c7516df; 0xfd616b15; 0x2f501ec8; 0xad0552ab; 0x323db5fa; 0xfd238760;
    0x53317b48; 0x3e00df82; 0x9e5c57bb; 0xca6f8ca0; 0x1a87562e; 0xdf1769db;
    0xd542a8f6; 0x287effc3; 0xac6732c6; 0x8c4f5573; 0x695b27b0; 0xbbca58c8;
    0xe1ffa35d; 0xb8f011a0; 0x10fa3d98; 0xfd2183b8; 0x4afcb56c; 0x2dd1d35b;
    0x9a53e479; 0xb6f84565; 0xd28e49bc; 0x4bfb9790; 0xe1ddf2da; 0xa4cb7e33;
    0x62fb1341; 0xcee4c6e8; 0xef20cada; 0x36774c01; 0xd07e9efe; 0x2bf11fb4;
    0x95dbda4d; 0xae909198; 0xeaad8e71; 0x6b93d5a0; 0xd08ed1d0; 0xafc725e0;
    0x8e3c5b2f; 0x8e7594b7; 0x8ff6e2fb; 0xf2122b64; 0x8888b812; 0x900df01c;
    0x4fad5ea0; 0x688fc31c; 0xd1cff191; 0xb3a8c1ad; 0x2f2f2218; 0xbe0e1777;
    0xea752dfe; 0x8b021fa1; 0xe5a0cc0f; 0xb56f74e8; 0x18acf3d6; 0xce89e299;
    0xb4a84fe0; 0xfd13e0b7; 0x7cc43b81; 0xd2ada8d9; 0x165fa266; 0x80957705;
    0x93cc7314; 0x211a1477; 0xe6ad2065; 0x77b5fa86; 0xc75442f5; 0xfb9d35cf;
    0xebcdaf0c; 0x7b3e89a0; 0xd6411bd3; 0xae1e7e49; 0x00250e2d; 0x2071b35e;
    0x226800bb; 0x57b8e0af; 0x2464369b; 0xf009b91e; 0x5563911d; 0x59dfa6aa;
    0x78c14389; 0xd95a537f; 0x207d5ba2; 0x02e5b9c5; 0x83260376; 0x6295cfa9;
    0x11c81968; 0x4e734a41; 0xb3472dca; 0x7b14a94a; 0x1b510052; 0x9a532915;
    0xd60f573f; 0xbc9bc6e4; 0x2b60a476; 0x81e67400; 0x08ba6fb5; 0x571be91f;
    0xf296ec6b; 0x2a0dd915; 0xb6636521; 0xe7b9f9b6; 0xff34052e; 0xc5855664;
    0x53b02d5d; 0xa99f8fa1; 0x08ba4799; 0x6e85076a
  | 0 : int |].

Definition S1_INIT : array int :=
  [|
    0x4b7a70e9; 0xb5b32944; 0xdb75092e; 0xc4192623; 0xad6ea6b0; 0x49a7df7d;
    0x9cee60b8; 0x8fedb266; 0xecaa8c71; 0x699a17ff; 0x5664526c; 0xc2b19ee1;
    0x193602a5; 0x75094c29; 0xa0591340; 0xe4183a3e; 0x3f54989a; 0x5b429d65;
    0x6b8fe4d6; 0x99f73fd6; 0xa1d29c07; 0xefe830f5; 0x4d2d38e6; 0xf0255dc1;
    0x4cdd2086; 0x8470eb26; 0x6382e9c6; 0x021ecc5e; 0x09686b3f; 0x3ebaefc9;
    0x3c971814; 0x6b6a70a1; 0x687f3584; 0x52a0e286; 0xb79c5305; 0xaa500737;
    0x3e07841c; 0x7fdeae5c; 0x8e7d44ec; 0x5716f2b8; 0xb03ada37; 0xf0500c0d;
    0xf01c1f04; 0x0200b3ff; 0xae0cf51a; 0x3cb574b2; 0x25837a58; 0xdc0921bd;
    0xd19113f9; 0x7ca92ff6; 0x94324773; 0x22f54701; 0x3ae5e581; 0x37c2dadc;
    0xc8b57634; 0x9af3dda7; 0xa9446146; 0x0fd0030e; 0xecc8c73e; 0xa4751e41;
    0xe238cd99; 0x3bea0e2f; 0x3280bba1; 0x183eb331; 0x4e548b38; 0x4f6db908;
    0x6f420d03; 0xf60a04bf; 0x2cb81290; 0x24977c79; 0x5679b072; 0xbcaf89af;
    0xde9a771f; 0xd9930810; 0xb38bae12; 0xdccf3f2e; 0x5512721f; 0x2e6b7124;
    0x501adde6; 0x9f84cd87; 0x7a584718; 0x7408da17; 0xbc9f9abc; 0xe94b7d8c;
    0xec7aec3a; 0xdb851dfa; 0x63094366; 0xc464c3d2; 0xef1c1847; 0x3215d908;
    0xdd433b37; 0x24c2ba16; 0x12a14d43; 0x2a65c451; 0x50940002; 0x133ae4dd;
    0x71dff89e; 0x10314e55; 0x81ac77d6; 0x5f11199b; 0x043556f1; 0xd7a3c76b;
    0x3c11183b; 0x5924a509; 0xf28fe6ed; 0x97f1fbfa; 0x9ebabf2c; 0x1e153c6e;
    0x86e34570; 0xeae96fb1; 0x860e5e0a; 0x5a3e2ab3; 0x771fe71c; 0x4e3d06fa;
    0x2965dcb9; 0x99e71d0f; 0x803e89d6; 0x5266c825; 0x2e4cc978; 0x9c10b36a;
    0xc6150eba; 0x94e2ea78; 0xa5fc3c53; 0x1e0a2df4; 0xf2f74ea7; 0x361d2b3d;
    0x1939260f; 0x19c27960; 0x5223a708; 0xf71312b6; 0xebadfe6e; 0xeac31f66;
    0xe3bc4595; 0xa67bc883; 0xb17f37d1; 0x018cff28; 0xc332ddef; 0xbe6c5aa5;
    0x65582185; 0x68ab9802; 0xeecea50f; 0xdb2f953b; 0x2aef7dad; 0x5b6e2f84;
    0x1521b628; 0x29076170; 0xecdd4775; 0x619f1510; 0x13cca830; 0xeb61bd96;
    0x0334fe1e; 0xaa0363cf; 0xb5735c90; 0x4c70a239; 0xd59e9e0b; 0xcbaade14;
    0xeecc86bc; 0x60622ca7; 0x9cab5cab; 0xb2f3846e; 0x648b1eaf; 0x19bdf0ca;
    0xa02369b9; 0x655abb50; 0x40685a32; 0x3c2ab4b3; 0x319ee9d5; 0xc021b8f7;
    0x9b540b19; 0x875fa099; 0x95f7997e; 0x623d7da8; 0xf837889a; 0x97e32d77;
    0x11ed935f; 0x16681281; 0x0e358829; 0xc7e61fd6; 0x96dedfa1; 0x7858ba99;
    0x57f584a5; 0x1b227263; 0x9b83c3ff; 0x1ac24696; 0xcdb30aeb; 0x532e3054;
    0x8fd948e4; 0x6dbc3128; 0x58ebf2ef; 0x34c6ffea; 0xfe28ed61; 0xee7c3c73;
    0x5d4a14d9; 0xe864b7e3; 0x42105d14; 0x203e13e0; 0x45eee2b6; 0xa3aaabea;
    0xdb6c4f15; 0xfacb4fd0; 0xc742f442; 0xef6abbb5; 0x654f3b1d; 0x41cd2105;
    0xd81e799e; 0x86854dc7; 0xe44b476a; 0x3d816250; 0xcf62a1f2; 0x5b8d2646;
    0xfc8883a0; 0xc1c7b6a3; 0x7f1524c3; 0x69cb7492; 0x47848a0b; 0x5692b285;
    0x095bbf00; 0xad19489d; 0x1462b174; 0x23820e00; 0x58428d2a; 0x0c55f5ea;
    0x1dadf43e; 0x233f7061; 0x3372f092; 0x8d937e41; 0xd65fecf1; 0x6c223bdb;
    0x7cde3759; 0xcbee7460; 0x4085f2a7; 0xce77326e; 0xa6078084; 0x19f8509e;
    0xe8efd855; 0x61d99735; 0xa969a7aa; 0xc50c06c2; 0x5a04abfc; 0x800bcadc;
    0x9e447a2e; 0xc3453484; 0xfdd56705; 0x0e1e9ec9; 0xdb73dbd3; 0x105588cd;
    0x675fda79; 0xe3674340; 0xc5c43465; 0x713e38d8; 0x3d28f89e; 0xf16dff20;
    0x153e21e7; 0x8fb03d4a; 0xe6e39f2b; 0xdb83adf7
  | 0 : int |].

Definition S2_INIT : array int :=
  [|
    0xe93d5a68; 0x948140f7; 0xf64c261c; 0x94692934; 0x411520f7; 0x7602d4f7;
    0xbcf46b2e; 0xd4a20068; 0xd4082471; 0x3320f46a; 0x43b7d4b7; 0x500061af;
    0x1e39f62e; 0x97244546; 0x14214f74; 0xbf8b8840; 0x4d95fc1d; 0x96b591af;
    0x70f4ddd3; 0x66a02f45; 0xbfbc09ec; 0x03bd9785; 0x7fac6dd0; 0x31cb8504;
    0x96eb27b3; 0x55fd3941; 0xda2547e6; 0xabca0a9a; 0x28507825; 0x530429f4;
    0x0a2c86da; 0xe9b66dfb; 0x68dc1462; 0xd7486900; 0x680ec0a4; 0x27a18dee;
    0x4f3ffea2; 0xe887ad8c; 0xb58ce006; 0x7af4d6b6; 0xaace1e7c; 0xd3375fec;
    0xce78a399; 0x406b2a42; 0x20fe9e35; 0xd9f385b9; 0xee39d7ab; 0x3b124e8b;
    0x1dc9faf7; 0x4b6d1856; 0x26a36631; 0xeae397b2; 0x3a6efa74; 0xdd5b4332;
    0x6841e7f7; 0xca7820fb; 0xfb0af54e; 0xd8feb397; 0x454056ac; 0xba489527;
    0x55533a3a; 0x20838d87; 0xfe6ba9b7; 0xd096954b; 0x55a867bc; 0xa1159a58;
    0xcca92963; 0x99e1db33; 0xa62a4a56; 0x3f3125f9; 0x5ef47e1c; 0x9029317c;
    0xfdf8e802; 0x04272f70; 0x80bb155c; 0x05282ce3; 0x95c11548; 0xe4c66d22;
    0x48c1133f; 0xc70f86dc; 0x07f9c9ee; 0x41041f0f; 0x404779a4; 0x5d886e17;
    0x325f51eb; 0xd59bc0d1; 0xf2bcc18f; 0x41113564; 0x257b7834; 0x602a9c60;
    0xdff8e8a3; 0x1f636c1b; 0x0e12b4c2; 0x02e1329e; 0xaf664fd1; 0xcad18115;
    0x6b2395e0; 0x333e92e1; 0x3b240b62; 0xeebeb922; 0x85b2a20e; 0xe6ba0d99;
    0xde720c8c; 0x2da2f728; 0xd0127845; 0x95b794fd; 0x647d0862; 0xe7ccf5f0;
    0x5449a36f; 0x877d48fa; 0xc39dfd27; 0xf33e8d1e; 0x0a476341; 0x992eff74;
    0x3a6f6eab; 0xf4f8fd37; 0xa812dc60; 0xa1ebddf8; 0x991be14c; 0xdb6e6b0d;
    0xc67b5510; 0x6d672c37; 0x2765d43b; 0xdcd0e804; 0xf1290dc7; 0xcc00ffa3;
    0xb5390f92; 0x690fed0b; 0x667b9ffb; 0xcedb7d9c; 0xa091cf0b; 0xd9155ea3;
    0xbb132f88; 0x515bad24; 0x7b9479bf; 0x763bd6eb; 0x37392eb3; 0xcc115979;
    0x8026e297; 0xf42e312d; 0x6842ada7; 0xc66a2b3b; 0x12754ccc; 0x782ef11c;
    0x6a124237; 0xb79251e7; 0x06a1bbe6; 0x4bfb6350; 0x1a6b1018; 0x11caedfa;
    0x3d25bdd8; 0xe2e1c3c9; 0x44421659; 0x0a121386; 0xd90cec6e; 0xd5abea2a;
    0x64af674e; 0xda86a85f; 0xbebfe988; 0x64e4c3fe; 0x9dbc8057; 0xf0f7c086;
    0x60787bf8; 0x6003604d; 0xd1fd8346; 0xf6381fb0; 0x7745ae04; 0xd736fccc;
    0x83426b33; 0xf01eab71; 0xb0804187; 0x3c005e5f; 0x77a057be; 0xbde8ae24;
    0x55464299; 0xbf582e61; 0x4e58f48f; 0xf2ddfda2; 0xf474ef38; 0x8789bdc2;
    0x5366f9c3; 0xc8b38e74; 0xb475f255; 0x46fcd9b9; 0x7aeb2661; 0x8b1ddf84;
    0x846a0e79; 0x915f95e2; 0x466e598e; 0x20b45770; 0x8cd55591; 0xc902de4c;
    0xb90bace1; 0xbb8205d0; 0x11a86248; 0x7574a99e; 0xb77f19b6; 0xe0a9dc09;
    0x662d09a1; 0xc4324633; 0xe85a1f02; 0x09f0be8c; 0x4a99a025; 0x1d6efe10;
    0x1ab93d1d; 0x0ba5a4df; 0xa186f20f; 0x2868f169; 0xdcb7da83; 0x573906fe;
    0xa1e2ce9b; 0x4fcd7f52; 0x50115e01; 0xa70683fa; 0xa002b5c4; 0x0de6d027;
    0x9af88c27; 0x773f8641; 0xc3604c06; 0x61a806b5; 0xf0177a28; 0xc0f586e0;
    0x006058aa; 0x30dc7d62; 0x11e69ed7; 0x2338ea63; 0x53c2dd94; 0xc2c21634;
    0xbbcbee56; 0x90bcb6de; 0xebfc7da1; 0xce591d76; 0x6f05e409; 0x4b7c0188;
    0x39720a3d; 0x7c927c24; 0x86e3725f; 0x724d9db9; 0x1ac15bb4; 0xd39eb8fc;
    0xed545578; 0x08fca5b5; 0xd83d7cd3; 0x4dad0fc4; 0x1e50ef5e; 0xb161e6f8;
    0xa28514d9; 0x6c51133c; 0x6fd5c7e7; 0x56e14ec4; 0x362abfce; 0xddc6c837;
    0xd79a3234; 0x92638212; 0x670efa8e; 0x406000e0
  | 0 : int |].

Definition S3_INIT : array int :=
  [|
    0x3a39ce37; 0xd3faf5cf; 0xabc27737; 0x5ac52d1b; 0x5cb0679e; 0x4fa33742;
    0xd3822740; 0x99bc9bbe; 0xd5118e9d; 0xbf0f7315; 0xd62d1c7e; 0xc700c47b;
    0xb78c1b6b; 0x21a19045; 0xb26eb1be; 0x6a366eb4; 0x5748ab2f; 0xbc946e79;
    0xc6a376d2; 0x6549c2c8; 0x530ff8ee; 0x468dde7d; 0xd5730a1d; 0x4cd04dc6;
    0x2939bbdb; 0xa9ba4650; 0xac9526e8; 0xbe5ee304; 0xa1fad5f0; 0x6a2d519a;
    0x63ef8ce2; 0x9a86ee22; 0xc089c2b8; 0x43242ef6; 0xa51e03aa; 0x9cf2d0a4;
    0x83c061ba; 0x9be96a4d; 0x8fe51550; 0xba645bd6; 0x2826a2f9; 0xa73a3ae1;
    0x4ba99586; 0xef5562e9; 0xc72fefd3; 0xf752f7da; 0x3f046f69; 0x77fa0a59;
    0x80e4a915; 0x87b08601; 0x9b09e6ad; 0x3b3ee593; 0xe990fd5a; 0x9e34d797;
    0x2cf0b7d9; 0x022b8b51; 0x96d5ac3a; 0x017da67d; 0xd1cf3ed6; 0x7c7d2d28;
    0x1f9f25cf; 0xadf2b89b; 0x5ad6b472; 0x5a88f54c; 0xe029ac71; 0xe019a5e6;
    0x47b0acfd; 0xed93fa9b; 0xe8d3c48d; 0x283b57cc; 0xf8d56629; 0x79132e28;
    0x785f0191; 0xed756055; 0xf7960e44; 0xe3d35e8c; 0x15056dd4; 0x88f46dba;
    0x03a16125; 0x0564f0bd; 0xc3eb9e15; 0x3c9057a2; 0x97271aec; 0xa93a072a;
    0x1b3f6d9b; 0x1e6321f5; 0xf59c66fb; 0x26dcf319; 0x7533d928; 0xb155fdf5;
    0x03563482; 0x8aba3cbb; 0x28517711; 0xc20ad9f8; 0xabcc5167; 0xccad925f;
    0x4de81751; 0x3830dc8e; 0x379d5862; 0x9320f991; 0xea7a90c2; 0xfb3e7bce;
    0x5121ce64; 0x774fbe32; 0xa8b6e37e; 0xc3293d46; 0x48de5369; 0x6413e680;
    0xa2ae0810; 0xdd6db224; 0x69852dfd; 0x09072166; 0xb39a460a; 0x6445c0dd;
    0x586cdecf; 0x1c20c8ae; 0x5bbef7dd; 0x1b588d40; 0xccd2017f; 0x6bb4e3bb;
    0xdda26a7e; 0x3a59ff45; 0x3e350a44; 0xbcb4cdd5; 0x72eacea8; 0xfa6484bb;
    0x8d6612ae; 0xbf3c6f47; 0xd29be463; 0x542f5d9e; 0xaec2771b; 0xf64e6370;
    0x740e0d8d; 0xe75b1357; 0xf8721671; 0xaf537d5d; 0x4040cb08; 0x4eb4e2cc;
    0x34d2466a; 0x0115af84; 0xe1b00428; 0x95983a1d; 0x06b89fb4; 0xce6ea048;
    0x6f3f3b82; 0x3520ab82; 0x011a1d4b; 0x277227f8; 0x611560b1; 0xe7933fdc;
    0xbb3a792b; 0x344525bd; 0xa08839e1; 0x51ce794b; 0x2f32c9b7; 0xa01fbac9;
    0xe01cc87e; 0xbcc7d1f6; 0xcf0111c3; 0xa1e8aac7; 0x1a908749; 0xd44fbd9a;
    0xd0dadecb; 0xd50ada38; 0x0339c32a; 0xc6913667; 0x8df9317c; 0xe0b12b4f;
    0xf79e59b7; 0x43f5bb3a; 0xf2d519ff; 0x27d9459c; 0xbf97222c; 0x15e6fc2a;
    0x0f91fc71; 0x9b941525; 0xfae59361; 0xceb69ceb; 0xc2a86459; 0x12baa8d1;
    0xb6c1075e; 0xe3056a0c; 0x10d25065; 0xcb03a442; 0xe0ec6e0e; 0x1698db3b;
    0x4c98a0be; 0x3278e964; 0x9f1f9532; 0xe0d392df; 0xd3a0342b; 0x8971f21e;
    0x1b0a7441; 0x4ba3348c; 0xc5be7120; 0xc37632d8; 0xdf359f8d; 0x9b992f2e;
    0xe60b6f47; 0x0fe3f11d; 0xe54cda54; 0x1edad891; 0xce6279cf; 0xcd3e7e6f;
    0x1618b166; 0xfd2c1d05; 0x848fd2c5; 0xf6fb2299; 0xf523f357; 0xa6327623;
    0x93a83531; 0x56cccd02; 0xacf08162; 0x5a75ebb5; 0x6e163697; 0x88d273cc;
    0xde966292; 0x81b949d0; 0x4c50901b; 0x71c65614; 0xe6c6c7bd; 0x327a140a;
    0x45e1d006; 0xc3f27b9a; 0xc9aa53fd; 0x62a80f00; 0xbb25bfe2; 0x35bdd2f6;
    0x71126905; 0xb2040222; 0xb6cbcf7c; 0xcd769c2b; 0x53113ec0; 0x1640e3d3;
    0x38abbd60; 0x2547adf0; 0xba38209c; 0xf746ce76; 0x77afa1c5; 0x20756060;
    0x85cbfe4e; 0x8ae88dd8; 0x7aaaf9b0; 0x4cf9aa7e; 0x1948c25c; 0x02fb8a8c;
    0x01c36ae4; 0xd6ebe1f9; 0x90d4f869; 0xa65cdea0; 0x3f09252d; 0xc208e69f;
    0xb74e6132; 0xce77e25b; 0x578fdfe3; 0x3ac372e6
  | 0 : int |].

Definition S_INIT : array (array int) :=
  [| S0_INIT; S1_INIT; S2_INIT; S3_INIT | S0_INIT : array int |].

(** [struct Blowfish { s: [[u32; 256]; 4], p: [u32; 18] }] *)
Record Blowfish := mkBlowfish { s : array (array int); p : array int }.

Definition u32_mask : int := 0xffffffff.

(** [u32::wrapping_add] *)
Definition wrapping_add (a b : int) : int := (a + b) land u32_mask.

(** [for i in lo..lo+n { body }] over an index [i], threading the loop state. *)
Fixpoint for_int {A} (n : nat) (i : int) (body : int -> A -> A) (st : A) : A :=
  match n with
  | O => st
  | S n' => for_int n' (i + 1) body (body i st)
  end.

(** [fn round_function(&self, x: u32) -> u32], on the four S-boxes
    [self.s[0]], ..., [self.s[3]]. *)
Definition round_function (s0 s1 s2 s3 : array int) (x : int) : int :=
  let a := s0.[x >> 24] in
  let b := s1.[(x >> 16) land 0xff] in
  let c := s2.[(x >> 8) land 0xff] in
  let d := s3.[x land 0xff] in
  wrapping_add (wrapping_add a b lxor c) d.

(** The loop of [encrypt] from the iteration with [2 * i = k] on, [n]
    iterations left, followed by the final whitening and swap:
    [for i in 0..8 { l ^= self.p[2 * i]; r ^= self.round_function(l);
                     r ^= self.p[2 * i + 1]; l ^= self.round_function(r); }
     l ^= self.p[16]; r ^= self.p[17]; (r, l)] *)
Fixpoint encrypt_rounds (s0 s1 s2 s3 p : array int) (n : nat) (k : int) (l r : int)
  : int * int :=
  match n with
  | O => (r lxor p.[17], l lxor p.[16])
  | S n' =>
    let l := l lxor p.[k] in
    let r := r lxor round_function s0 s1 s2 s3 l lxor p.[k + 1] in
    let l := l lxor round_function s0 s1 s2 s3 r in
    encrypt_rounds s0 s1 s2 s3 p n' (k + 2) l r
  end.

(** [fn encrypt(&self, l: u32, r: u32) -> (u32, u32)] *)
Definition encrypt (bf : Blowfish) (l r : int) : int * int :=
  let s := s bf in
  encrypt_rounds s.[0] s.[1] s.[2] s.[3] (p bf) 8 0 l r.

(** [fn next_u32_wrap(buf: &[u8], offset: &mut usize) -> u32]: four bytes
    read big-endian, the offset wrapping to 0 at the end of [buf].  The
    keys and salts it reads are the 64-byte digests checked by [bhash], so
    the read [buf[*offset]] is in range. *)
Definition next_u32_wrap (buf : list Z) (offset : nat) : int * nat :=
  let step '(v, offset) :=
    let offset := if Nat.leb (List.length buf) offset then O else offset in
    (((v << 8) land u32_mask) lor of_Z (List.nth offset buf 0%Z), S offset) in
  step (step (step (step (0, offset)))).

(** [self.p[i] = v] and [self.s[i][j] = v] *)
Definition set_p (bf : Blowfish) (i v : int) : Blowfish :=
  mkBlowfish (s bf) ((p bf).[i <- v]).
Definition set_s (bf : Blowfish) (i j v : int) : Blowfish :=
  mkBlowfish ((s bf).[i <- (s bf).[i].[j <- v]]) (p bf).

(** [for i in 0..18 { self.p[i] ^= next_u32_wrap(key, &mut key_pos); }] *)
Definition xor_key_into_p (bf : Blowfish) (key : list Z) : Blowfish :=
  fst (for_int 18 0 (fun i '(bf, key_pos) =>
         let '(w, key_pos) := next_u32_wrap key key_pos in
         (set_p bf i ((p bf).[i] lxor w), key_pos)) (bf, O)).

(** [fn expand_key(&mut self, key: &[u8])] *)
Definition expand_key (bf : Blowfish) (key : list Z) : Blowfish :=
  let bf := xor_key_into_p bf key in
  let '(bf, lr) :=
    for_int 9 0 (fun i '(bf, lr) =>
      let lr := encrypt bf (fst lr) (snd lr) in
      (set_p (set_p bf (2 * i) (fst lr)) (2 * i + 1) (snd lr), lr)) (bf, (0, 0)) in
  fst (for_int 4 0 (fun i st =>
         for_int 128 0 (fun j '(bf, lr) =>
           let lr := encrypt bf (fst lr) (snd lr) in
           (set_s (set_s bf i (2 * j) (fst lr)) i (2 * j + 1) (snd lr), lr)) st)
       (bf, lr)).

(** [pub fn salted_expand_key(&mut self, salt: &[u8], key: &[u8])] *)
Definition salted_expand_key (bf : Blowfish) (salt key : list Z) : Blowfish :=
  let bf := xor_key_into_p bf key in
  (* [lr.0 ^= next_u32_wrap(salt, ..); lr.1 ^= next_u32_wrap(salt, ..);
      lr = self.encrypt(lr.0, lr.1);] *)
  let salted_encrypt bf '((l, r), salt_pos) :=
    let '(w0, salt_pos) := next_u32_wrap salt salt_pos in
    let '(w1, salt_pos) := next_u32_wrap salt salt_pos in
    (encrypt bf (l lxor w0) (r lxor w1), salt_pos) in
  let '(bf, st) :=
    for_int 9 0 (fun i '(bf, st) =>
      let '(lr, salt_pos) := salted_encrypt bf st in
      (set_p (set_p bf (2 * i) (fst lr)) (2 * i + 1) (snd lr), (lr, salt_pos)))
      (bf, ((0, 0), O)) in
  fst (for_int 4 0 (fun i st =>
         for_int 64 0 (fun j '(bf, st) =>
           let '(lr, salt_pos) := salted_encrypt bf st in
           let bf := set_s (set_s bf i (4 * j) (fst lr)) i (4 * j + 1) (snd lr) in
           let '(lr, salt_pos) := salted_encrypt bf (lr, salt_pos) in
           let bf := set_s (set_s bf i (4 * j + 2) (fst lr)) i (4 * j + 3) (snd lr) in
           (bf, (lr, salt_pos))) st)
       (bf, st)).

(** [pub fn bc_init_state() -> Blowfish]: the tables of the cipher, unkeyed. *)
Definition bc_init_state : Blowfish := mkBlowfish S_INIT P_INIT.

(** [pub fn bc_encrypt] and [pub fn bc_expand_key] *)
Definition bc_encrypt (bf : Blowfish) (l r : int) : int * int := encrypt bf l r.
Definition bc_expand_key (bf : Blowfish) (key : list Z) : Blowfish := expand_key bf key.

End Blowfish.

(** ** Shared helpers: loops, slices and byte order *)

Import ListNotations.

(** [for _ in 0..n { body }] *)
Fixpoint times {A} (n : nat) (body : A -> A) (st : A) : A :=
  match n with
  | O => st
  | S n' => times n' body (body st)
  end.

(** [for i in (start..).step_by(step).take(n) { body }] *)
Fixpoint for_nat {A} (n start step : nat) (body : nat -> A -> A) (st : A) : A :=
  match n with
  | O => st
  | S n' => for_nat n' (start + step) step body (body start st)
  end.

(** [v[i] = x] on a vector or array; the indices written by the code are in
    range (out of range, Rust would panic; the list is then left as is). *)
Fixpoint list_set {A} (l : list A) (i : nat) (x : A) : list A :=
  match l, i with
  | [], _ => []
  | _ :: l', O => x :: l'
  | y :: l', S i' => y :: list_set l' i' x
  end.

(** [&v[lo..hi]] *)
Definition slice {A} (l : list A) (lo hi : nat) : list A := firstn (hi - lo) (skipn lo l).

(** [byteorder]: a big-endian word from bytes, and the [n] big-endian bytes
    of a word. *)
Definition be_read (bytes : list Z) : Z :=
  fold_left (fun acc b => (acc * 256 + b)%Z) bytes 0%Z.
Definition be_bytes (n : nat) (x : Z) : list Z :=
  map (fun i => Z.land (Z.shiftr x (8 * Z.of_nat (n - 1 - i))) 255) (seq 0 n).

(** The bytes of an ASCII string literal ([b"..."], [str::as_bytes]). *)
Definition bytes_of_string (str : String.string) : list Z :=
  map (fun c => Z.of_N (Ascii.N_of_ascii c)) (String.list_ascii_of_string str).

(** ** The [sha2] crate: SHA-512 with its streaming [Digest] interface *)

Module Sha512.

Local Open Scope Z_scope.

Definition H512 : list Z := [
    0x6a09e667f3bcc908; 0xbb67ae8584caa73b; 0x3c6ef372fe94f82b;
    0xa54ff53a5f1d36f1; 0x510e527fade682d1; 0x9b05688c2b3e6c1f;
    0x1f83d9abfb41bd6b; 0x5be0cd19137e2179].

Definition K512 : list Z := [
    0x428a2f98d728ae22; 0x7137449123ef65cd; 0xb5c0fbcfec4d3b2f;
    0xe9b5dba58189dbbc; 0x3956c25bf348b538; 0x59f111f1b605d019;
    0x923f82a4af194f9b; 0xab1c5ed5da6d8118; 0xd807aa98a3030242;
    0x12835b0145706fbe; 0x243185be4ee4b28c; 0x550c7dc3d5ffb4e2;
    0x72be5d74f27b896f; 0x80deb1fe3b1696b1; 0x9bdc06a725c71235;
    0xc19bf174cf692694; 0xe49b69c19ef14ad2; 0xefbe4786384f25e3;
    0x0fc19dc68b8cd5b5; 0x240ca1cc77ac9c65; 0x2de92c6f592b0275;
    0x4a7484aa6ea6e483; 0x5cb0a9dcbd41fbd4; 0x76f988da831153b5;
    0x983e5152ee66dfab; 0xa831c66d2db43210; 0xb00327c898fb213f;
    0xbf597fc7beef0ee4; 0xc6e00bf33da88fc2; 0xd5a79147930aa725;
    0x06ca6351e003826f; 0x142929670a0e6e70; 0x27b70a8546d22ffc;
    0x2e1b21385c26c926; 0x4d2c6dfc5ac42aed; 0x53380d139d95b3df;
    0x650a73548baf63de; 0x766a0abb3c77b2a8; 0x81c2c92e47edaee6;
    0x92722c851482353b; 0xa2bfe8a14cf10364; 0xa81a664bbc423001;
    0xc24b8b70d0f89791; 0xc76c51a30654be30; 0xd192e819d6ef5218;
    0xd69906245565a910; 0xf40e35855771202a; 0x106aa07032bbd1b8;
    0x19a4c116b8d2d0c8; 0x1e376c085141ab53; 0x2748774cdf8eeb99;
    0x34b0bcb5e19b48a8; 0x391c0cb3c5c95a63; 0x4ed8aa4ae3418acb;
    0x5b9cca4f7763e373; 0x682e6ff3d6b2b8a3; 0x748f82ee5defb2fc;
    0x78a5636f43172f60; 0x84c87814a1f0ab72; 0x8cc702081a6439ec;
    0x90befffa23631e28; 0xa4506cebde82bde9; 0xbef9a3f7b2c67915;
    0xc67178f2e372532b; 0xca273eceea26619c; 0xd186b8c721c0c207;
    0xeada7dd6cde0eb1e; 0xf57d4f7fee6ed178; 0x06f067aa72176fba;
    0x0a637dc5a2c898a6; 0x113f9804bef90dae; 0x1b710b35131c471b;
    0x28db77f523047d84; 0x32caab7b40c72493; 0x3c9ebe0a15c9bebc;
    0x431d67c49c100d4c; 0x4cc5d4becb3e42b6; 0x597f299cfc657e2a;
    0x5fcb6fab3ad6faec; 0x6c44198c4a475817].

Definition mask64 : Z := Z.ones 64.

(** [u64::wrapping_add] and [u64::rotate_right] *)
Definition add64 (a b : Z) : Z := (a + b) mod 2 ^ 64.
Definition rotr64 (x : Z) (n : Z) : Z :=
  Z.lor (Z.shiftr x n) (Z.land (Z.shiftl x (64 - n)) mask64).

Definition bsig0 (x : Z) : Z := Z.lxor (Z.lxor (rotr64 x 28) (rotr64 x 34)) (rotr64 x 39).
Definition bsig1 (x : Z) : Z := Z.lxor (Z.lxor (rotr64 x 14) (rotr64 x 18)) (rotr64 x 41).
Definition ssig0 (x : Z) : Z := Z.lxor (Z.lxor (rotr64 x 1) (rotr64 x 8)) (Z.shiftr x 7).
Definition ssig1 (x : Z) : Z := Z.lxor (Z.lxor (rotr64 x 19) (rotr64 x 61)) (Z.shiftr x 6).
Definition ch (e f g : Z) : Z := Z.lxor (Z.land e f) (Z.land (Z.lxor e mask64) g).
Definition maj (a b c : Z) : Z := Z.lxor (Z.lxor (Z.land a b) (Z.land a c)) (Z.land b c).

(** The message schedule [W_0 .. W_79] of a 128-byte block.  The words
    computed so far are kept newest first, so [W_(t-2)], [W_(t-7)],
    [W_(t-15)] and [W_(t-16)] are at positions 1, 6, 14 and 15. *)
Fixpoint schedule_rev (n : nat) (w : list Z) : list Z :=
  match n with
  | O => w
  | S n' =>
    let wt := add64 (add64 (ssig1 (nth 1 w 0)) (nth 6 w 0))
                    (add64 (ssig0 (nth 14 w 0)) (nth 15 w 0)) in
    schedule_rev n' (wt :: w)
  end.

Definition block_words (block : list Z) : list Z :=
  map (fun t => be_read (firstn 8 (skipn (8 * t) block))) (seq 0 16).

Definition schedule (block : list Z) : list Z :=
  rev (schedule_rev 64 (rev (block_words block))).

(** One round of the compression function on the working variables. *)
Definition round (v : Z * Z * Z * Z * Z * Z * Z * Z) (kw : Z * Z)
  : Z * Z * Z * Z * Z * Z * Z * Z :=
  let '(a, b, c, d, e, f, g, h) := v in
  let t1 := add64 (add64 (add64 h (bsig1 e)) (add64 (ch e f g) (fst kw))) (snd kw) in
  let t2 := add64 (bsig0 a) (maj a b c) in
  (add64 t1 t2, a, b, c, add64 d t1, e, f, g).

(** [fn compress512(state: &mut [u64; 8], block: &[u8; 128])]; the state is
    always the eight words of the hash. *)
Definition compress512 (st : list Z) (block : list Z) : list Z :=
  match st with
  | [a; b; c; d; e; f; g; h] =>
    let '(a', b', c', d', e', f', g', h') :=
      fold_left round (combine K512 (schedule block)) (a, b, c, d, e, f, g, h) in
    [add64 a a'; add64 b b'; add64 c c'; add64 d d';
     add64 e e'; add64 f f'; add64 g g'; add64 h h']
  | _ => st
  end.

(** Compress the first [n] 128-byte blocks of [data]. *)
Fixpoint compress_blocks (n : nat) (st : list Z) (data : list Z) : list Z :=
  match n with
  | O => st
  | S n' => compress_blocks n' (compress512 st (firstn 128 data)) (skipn 128 data)
  end.

(** [struct Sha512 { engine: Engine512 }]: the hash words, the block buffer
    (the bytes of the unfinished block) and the message length in bits, a
    [u128]. *)
Record Sha512 := mkSha512 { state : list Z; buffer : list Z; len : Z }.

(** [Sha512::default()] *)
Definition default : Sha512 := mkSha512 H512 [] 0.

(** [Input::input]: the length grows by [8 * data.len()] bits; the block
    buffer is filled with [data], every full block is compressed and the
    incomplete tail is kept. *)
Definition input (st : Sha512) (data : list Z) : Sha512 :=
  let all := buffer st ++ data in
  let n := (length all / 128)%nat in
  mkSha512 (compress_blocks n (state st) all) (skipn (128 * n) all)
           ((len st + 8 * Z.of_nat (length data)) mod 2 ^ 128).

(** [Reset::reset]: [self.engine.reset(&H512)], back to the initial state. *)
Definition reset (st : Sha512) : Sha512 := default.

(** [FixedOutput::fixed_result]: pad with [0x80], zeros and the 128-bit
    big-endian bit length up to a block boundary, compress, and write the
    eight words big-endian. *)
Definition result (st : Sha512) : list Z :=
  let pos := Z.of_nat (length (buffer st)) in
  let padded := buffer st ++ [128] ++ repeat 0 (Z.to_nat ((111 - pos) mod 128))
                ++ be_bytes 16 (len st) in
  let h := compress_blocks (length padded / 128) (state st) padded in
  flat_map (be_bytes 8) h.

(** [Sha512::digest(data)]: [let mut h = Self::default(); h.input(data); h.result()] *)
Definition digest (data : list Z) : list Z := result (input default data).

End Sha512.

(** ** Option as the panic monad *)

Notation "'let*' x := e1 'in' e2" :=
  (match e1 with Some x => e2 | None => None end)
  (at level 200, x name, e1 at level 100, e2 at level 200).

Fixpoint map_option {A B} (f : A -> option B) (l : list A) : option (list B) :=
  match l with
  | [] => Some []
  | x :: l' =>
    let* y := f x in
    let* ys := map_option f l' in
    Some (y :: ys)
  end.

(** ** The [crypto-mac] crate: the [Mac] trait *)

Class Mac (M : Type) := {
  (** [type OutputSize] and [type KeySize] *)
  output_size : nat;
  key_size : nat;
  (** [fn new(key: &GenericArray<u8, Self::KeySize>) -> Self] *)
  new : list Z -> M;
  (** [fn input(&mut self, data: &[u8])] *)
  input : M -> list Z -> M;
  (** [fn reset(&mut self)] *)
  reset : M -> M;
  (** [fn result(self) -> MacResult<Self::OutputSize>] *)
  result : M -> option (list Z)
}.

(** [fn new_varkey(key: &[u8]) -> Result<Self, InvalidKeyLength>], the
    provided method: a key of any other length than [KeySize] is refused. *)
Definition new_varkey {M} `{Mac M} (key : list Z) : option M :=
  if Nat.eqb (length key) key_size then Some (new key) else None.

(** ** The [pbkdf2] crate *)

Module Pbkdf2.

(** [fn xor(res: &mut [u8], salt: &[u8])]: [res[k] ^= salt[k]] along the
    shorter of the two. *)
Fixpoint xor (res salt : list Z) : list Z :=
  match res, salt with
  | r :: res', x :: salt' => Z.lxor r x :: xor res' salt'
  | _, _ => res
  end.

(** [res.chunks_mut(n)] for [n > 0]: pieces of [n] bytes, the last one
    possibly shorter. *)
Fixpoint chunks_aux {A} (n count : nat) (l : list A) : list (list A) :=
  match count with
  | O => []
  | S count' => firstn n l :: chunks_aux n count' (skipn n l)
  end.
Definition chunks {A} (n : nat) (l : list A) : list (list A) :=
  chunks_aux n ((length l + n - 1) / n) l.

(** The loop [for _ in 1..c { salt = prf(salt); xor(chunk, &salt); }]. *)
Fixpoint iterate_prf {F} `{Mac F} (n : nat) (prf : F) (chunk u : list Z)
  : option (list Z) :=
  match n with
  | O => Some chunk
  | S n' =>
    let* u := result (input prf u) in
    iterate_prf n' prf (xor chunk u) u
  end.

(** [fn pbkdf2_body<F: Mac + Clone>(i, chunk, prf, salt, c)]: block [i]
    (from 0) is [U_1 ^ ... ^ U_c] with [U_1 = prf(salt || BE32(i + 1))] and
    [U_(k+1) = prf(U_k)]; [prf.clone()] is the keyed value [prf] itself. *)
Definition pbkdf2_body {F} `{Mac F} (i : nat) (chunk : list Z) (prf : F)
  (salt : list Z) (c : nat) : option (list Z) :=
  let chunk := map (fun _ => 0%Z) chunk in
  let prfc := input prf salt in
  let prfc := input prfc (be_bytes 4 (Z.of_nat (i + 1) mod 2 ^ 32)) in
  let* u := result prfc in
  let chunk := xor chunk u in
  iterate_prf (c - 1) prf chunk u.

(** [pub fn pbkdf2<F: Mac + Clone>(password, salt, c, res: &mut [u8])]:
    returns the new contents of [res]. *)
Definition pbkdf2 {F} `{Mac F} (password salt : list Z) (c : nat) (res : list Z)
  : option (list Z) :=
  let n := output_size in
  (* [F::new_varkey(password).expect("HMAC accepts all key sizes")] *)
  let* prf := new_varkey password in
  let pieces := chunks n res in
  let* pieces := map_option (fun '(i, chunk) => pbkdf2_body i chunk prf salt c)
                            (combine (seq 0 (length pieces)) pieces) in
  Some (concat pieces).

End Pbkdf2.

(** ** [src/lib.rs] *)

Definition BHASH_WORDS : nat := 8.
Definition BHASH_OUTPUT_SIZE : nat := BHASH_WORDS * 4.
Definition BHASH_SEED : list Z := bytes_of_string "OxychromaticBlowfishSwatDynamite"%string.

(** [<Sha512 as Digest>::output_size()] *)
Definition SHA512_OUTPUT_SIZE : nat := 64.

(** [BE::read_u32(buf)] *)
Definition be_read_u32 (buf : list Z) : int := Uint63.of_Z (be_read buf).

(** [LE::write_u32(&mut buf[off..off + 4], n)]: byte [k] is [n >> 8k]. *)
Definition le_write_u32 (buf : list Z) (off : nat) (n : int) : list Z :=
  for_nat 4 0 1 (fun k buf =>
    list_set buf (off + k)
      (Uint63.to_Z (Uint63.land (Uint63.lsr n (Uint63.of_Z (8 * Z.of_nat k))) 255%uint63)))
    buf.

(** [fn bhash(sha2_pass: &[u8], sha2_salt: &[u8]) -> [u8; BHASH_OUTPUT_SIZE]];
    [None] is the panic of one of the two [assert_eq!]. *)
Definition bhash (sha2_pass sha2_salt : list Z) : option (list Z) :=
  if negb (Nat.eqb (length sha2_pass) SHA512_OUTPUT_SIZE) then None else
  if negb (Nat.eqb (length sha2_salt) SHA512_OUTPUT_SIZE) then None else
  let blowfish := Blowfish.bc_init_state in
  let blowfish := Blowfish.salted_expand_key blowfish sha2_salt sha2_pass in
  let blowfish :=
    times 64 (fun blowfish =>
      let blowfish := Blowfish.bc_expand_key blowfish sha2_salt in
      Blowfish.bc_expand_key blowfish sha2_pass) blowfish in
  let cdata := repeat 0%uint63 BHASH_WORDS in
  let cdata :=
    for_nat BHASH_WORDS 0 1 (fun i cdata =>
      list_set cdata i (be_read_u32 (slice BHASH_SEED (i * 4) ((i + 1) * 4)))) cdata in
  let cdata :=
    times 64 (fun cdata =>
      for_nat (BHASH_WORDS / 2) 0 2 (fun i cdata =>
        let '(l, r) := Blowfish.bc_encrypt blowfish (nth i cdata 0%uint63)
                                                    (nth (i + 1) cdata 0%uint63) in
        list_set (list_set cdata i l) (i + 1) r) cdata) cdata in
  let output := repeat 0%Z BHASH_OUTPUT_SIZE in
  let output :=
    for_nat BHASH_WORDS 0 1 (fun i output =>
      le_write_u32 output (i * 4) (nth i cdata 0%uint63)) output in
  Some output.

(** [struct Bhash { sha2_pass, salt: Sha512 }] *)
Record Bhash := mkBhash {
  sha2_pass : list Z;
  salt : Sha512.Sha512
}.

(** [impl Mac for Bhash] *)
#[global] Instance Bhash_Mac : Mac Bhash := {
  output_size := 32;
  key_size := SHA512_OUTPUT_SIZE;
  new key := mkBhash key Sha512.default;
  input self data := mkBhash (sha2_pass self) (Sha512.input (salt self) data);
  reset self := mkBhash (sha2_pass self) (Sha512.reset (salt self));
  result self := bhash (sha2_pass self) (Sha512.result (salt self))
}.

(** [pub fn bcrypt_pbkdf(passphrase: &str, salt: &[u8], rounds: u32, output: &mut [u8])]:
    [passphrase] is given by its bytes [passphrase.as_bytes()], [rounds] is
    a [u32]; the result is the new contents of [output], or [None] for a
    panic. *)
Definition bcrypt_pbkdf (passphrase : list Z) (salt : list Z) (rounds : N)
  (output : list Z) : option (list Z) :=
  let stride := (length output + BHASH_OUTPUT_SIZE - 1) / BHASH_OUTPUT_SIZE in
  let generated := repeat 0%Z (stride * BHASH_OUTPUT_SIZE) in
  let* generated :=
    Pbkdf2.pbkdf2 (F := Bhash) (Sha512.digest passphrase) salt (N.to_nat rounds) generated in
  map_option (fun '(i, _out_byte) =>
      (* [i % stride] panics on a zero [stride] *)
      if Nat.eqb stride 0 then None else
      let chunk_num := i mod stride in
      let chunk_index := i / stride in
      nth_error generated (chunk_num * BHASH_OUTPUT_SIZE + chunk_index))
    (combine (seq 0 (length output)) output).

(** ** The algorithm of [bhash] as the specification describes it

    A second definition, in the specification's words, to be compared with
    [bhash] above: (1) the salted key expansion of the initial state, keyed
    by the salt with the password as keying material; (2) 128 re-expansions
    alternating salt, password, salt, ...; (3) the seed read as eight
    big-endian words; (4) 64 passes of ECB encryption of the four adjacent
    word pairs; (5) the words written little-endian in order. *)

(** Step 2: [n] re-expansions by [expand], the first one with the salt if
    [use_salt], then alternating. *)
Fixpoint reexpand_alternating {A} (expand : A -> list Z -> A) (use_salt : bool) (n : nat)
  (salt pass : list Z) (bf : A) : A :=
  match n with
  | O => bf
  | S n' =>
    reexpand_alternating expand (negb use_salt) n' salt pass
      (expand bf (if use_salt then salt else pass))
  end.

(** Step 3: consecutive groups of four bytes read as big-endian words. *)
Fixpoint be_words (bytes : list Z) : list int :=
  match bytes with
  | b0 :: b1 :: b2 :: b3 :: rest =>
    Uint63.of_Z (b0 * 2 ^ 24 + b1 * 2 ^ 16 + b2 * 2 ^ 8 + b3)%Z :: be_words rest
  | _ => []
  end.

(** Step 4: one ECB pass of the 64-bit block cipher [enc], each adjacent
    pair [(w_2i, w_2i+1)] replaced by its encryption, pairs in index order. *)
Fixpoint ecb_encrypt_pairs (enc : int -> int -> int * int) (words : list int) : list int :=
  match words with
  | l :: r :: rest =>
    let '(l', r') := enc l r in l' :: r' :: ecb_encrypt_pairs enc rest
  | _ => words
  end.

(** Step 5: byte [k] of a word is its bits [8k .. 8k + 7]. *)
Definition le_bytes (w : int) : list Z :=
  map (fun k => Uint63.to_Z (Uint63.land (Uint63.lsr w (Uint63.of_Z (8 * Z.of_nat k))) 255%uint63))
      (seq 0 4).

Definition bhash_reference (password64 salt64 : list Z) : list Z :=
  let bf := Blowfish.salted_expand_key Blowfish.bc_init_state salt64 password64 in
  let bf := reexpand_alternating Blowfish.bc_expand_key true 128 salt64 password64 bf in
  let cdata := be_words BHASH_SEED in
  let cdata := times 64 (ecb_encrypt_pairs (Blowfish.bc_encrypt bf)) cdata in
  flat_map le_bytes cdata.

(** * Properties *)

(** ** Helpers: lengths through loops and updates *)

Lemma list_set_length {A} (l : list A) i x : length (list_set l i x) = length l.
Proof. revert i; induction l as [|y l IH]; intros [|i]; simpl; auto. Qed.

Lemma for_nat_invariant {A} (P : A -> Prop) n start step body st :
  (forall i a, P a -> P (body i a)) -> P st -> P (for_nat n start step body st).
Proof. revert start st; induction n as [|n IH]; intros start st Hb Hst; simpl; auto. Qed.

Lemma times_invariant {A} (P : A -> Prop) n body st :
  (forall a, P a -> P (body a)) -> P st -> P (times n body st).
Proof. revert st; induction n as [|n IH]; intros st Hb Hst; simpl; auto. Qed.

Lemma le_write_u32_length buf off n : length (le_write_u32 buf off n) = length buf.
Proof.
  unfold le_write_u32.
  apply (for_nat_invariant (fun b => length b = length buf)); [|reflexivity].
  intros i a Ha. now rewrite list_set_length.
Qed.

Lemma be_bytes_length n x : length (be_bytes n x) = n.
Proof. unfold be_bytes. now rewrite length_map, length_seq. Qed.

Lemma flat_map_be_bytes_length n l : length (flat_map (be_bytes n) l) = n * length l.
Proof.
  induction l as [|x l IH]; simpl; [lia|].
  rewrite length_app, be_bytes_length, IH. lia.
Qed.

(** ** SHA-512: the streaming interface *)

Module Sha512Facts.
Import Sha512.

Lemma compress512_length st block : length (compress512 st block) = length st.
Proof.
  unfold compress512.
  do 8 (destruct st as [|? st]; [reflexivity|]).
  destruct st; [|reflexivity].
  destruct (fold_left _ _ _) as [[[[[[[? ?] ?] ?] ?] ?] ?] ?]. reflexivity.
Qed.

Lemma compress_blocks_length n st data : length (compress_blocks n st data) = length st.
Proof.
  revert st data; induction n as [|n IH]; intros st data; simpl; auto.
  now rewrite IH, compress512_length.
Qed.

(** Compressing [n + m] blocks is compressing [n], then the [m] that follow. *)
Lemma compress_blocks_add n m st data :
  compress_blocks (n + m) st data =
  compress_blocks m (compress_blocks n st data) (skipn (128 * n) data).
Proof.
  revert st data; induction n as [|n IH]; intros st data; [reflexivity|].
  change (S n + m) with (S (n + m)). cbn [compress_blocks].
  rewrite IH, skipn_skipn. do 2 f_equal. lia.
Qed.

(** Bytes past the [n] blocks are not read. *)
Lemma compress_blocks_app n st l r :
  128 * n <= length l -> compress_blocks n st (l ++ r) = compress_blocks n st l.
Proof.
  revert st l; induction n as [|n IH]; intros st l Hlen; [reflexivity|].
  cbn [compress_blocks]. rewrite firstn_app, skipn_app.
  replace (128 - length l) with 0 by lia.
  change (firstn 0 r) with (@nil Z). change (skipn 0 r) with r. rewrite app_nil_r.
  apply IH. rewrite length_skipn. lia.
Qed.

(** Feeding [a] then [b] is feeding [a ++ b]: the split of the input
    over [input] calls is invisible. *)
Lemma input_app st a b : input (input st a) b = input st (a ++ b).
Proof.
  unfold input; cbn [buffer state len].
  set (all1 := buffer st ++ a).
  set (n1 := length all1 / 128).
  set (rem1 := skipn (128 * n1) all1).
  assert (Hn1 : 128 * n1 <= length all1)
    by (subst n1; apply Nat.Div0.mul_div_le).
  assert (Hall : buffer st ++ a ++ b = all1 ++ b) by (subst all1; now rewrite app_assoc).
  assert (Hrem : length rem1 = length all1 - 128 * n1) by (subst rem1; apply length_skipn).
  assert (Hn : length (all1 ++ b) / 128 = n1 + length (rem1 ++ b) / 128).
  { rewrite !length_app, Hrem.
    replace (length all1 + length b) with (length all1 - 128 * n1 + length b + n1 * 128) by lia.
    rewrite Nat.div_add by lia. lia. }
  assert (Hskip : skipn (128 * n1) (all1 ++ b) = rem1 ++ b).
  { rewrite skipn_app. replace (128 * n1 - length all1) with 0 by lia. reflexivity. }
  rewrite Hall, Hn, compress_blocks_add, (compress_blocks_app n1 (state st) all1 b Hn1), Hskip.
  f_equal.
  - rewrite Nat.mul_add_distr_l, Nat.add_comm, <- skipn_skipn, Hskip. reflexivity.
  - rewrite length_app, Nat2Z.inj_add.
    rewrite Zplus_mod_idemp_l. f_equal. lia.
Qed.

Lemma input_nil_default : input default [] = default.
Proof. reflexivity. Qed.

(** Feeding the pieces [ds] one by one is feeding their concatenation. *)
Lemma fold_input st x ds : fold_left input ds (input st x) = input st (x ++ concat ds).
Proof.
  revert x; induction ds as [|d ds IH]; intros x; simpl.
  - now rewrite app_nil_r.
  - now rewrite input_app, IH, app_assoc.
Qed.

Lemma fold_input_default ds : fold_left input ds default = input default (concat ds).
Proof. rewrite <- input_nil_default at 1. apply fold_input. Qed.

Lemma input_state_length st d : length (state (input st d)) = length (state st).
Proof. apply compress_blocks_length. Qed.

Lemma result_length st : length (state st) = 8 -> length (result st) = 64.
Proof.
  intros H. unfold result.
  now rewrite flat_map_be_bytes_length, compress_blocks_length, H.
Qed.

Lemma digest_length d : length (digest d) = 64.
Proof. apply result_length. rewrite input_state_length. reflexivity. Qed.

End Sha512Facts.

(** ** [bhash]: the length checks and the shape of the result *)

Lemma bhash_output_length p s :
  length p = SHA512_OUTPUT_SIZE -> length s = SHA512_OUTPUT_SIZE ->
  exists out, bhash p s = Some out /\ length out = BHASH_OUTPUT_SIZE.
Proof.
  intros Hp Hs. unfold bhash. rewrite Hp, Hs. cbv zeta.
  change (negb (Nat.eqb SHA512_OUTPUT_SIZE SHA512_OUTPUT_SIZE)) with false.
  eexists; split; [reflexivity|].
  apply (for_nat_invariant (fun o => length o = BHASH_OUTPUT_SIZE)); [|apply repeat_length].
  intros i o Ho. now rewrite le_write_u32_length.
Qed.

Lemma bhash_bad_length p s :
  length p <> SHA512_OUTPUT_SIZE \/ length s <> SHA512_OUTPUT_SIZE -> bhash p s = None.
Proof.
  intros H. unfold bhash.
  destruct (Nat.eqb_spec (length p) SHA512_OUTPUT_SIZE) as [Hp|Hp]; [|reflexivity].
  destruct (Nat.eqb_spec (length s) SHA512_OUTPUT_SIZE) as [Hs|Hs]; [|reflexivity].
  exfalso. tauto.
Qed.

(** ** The [Mac] implementation of [Bhash] *)

Lemma fold_input_bhash key sh ds :
  fold_left (@input Bhash _) ds (mkBhash key sh) = mkBhash key (fold_left Sha512.input ds sh).
Proof. revert sh; induction ds as [|d ds IH]; intros sh; [reflexivity|]. apply IH. Qed.

(** A [Bhash] whose key is a digest and whose hash state is reachable
    from [Sha512::default()] finalizes without panicking. *)
Lemma bhash_result_ok (m : Bhash) :
  length (sha2_pass m) = SHA512_OUTPUT_SIZE -> length (Sha512.state (salt m)) = 8 ->
  exists u, result m = Some u /\ length u = BHASH_OUTPUT_SIZE.
Proof.
  intros Hk Hs. apply bhash_output_length; [assumption|].
  now apply Sha512Facts.result_length.
Qed.

(** ** The [pbkdf2] driver with [Bhash] *)

Lemma xor_length res u : length (Pbkdf2.xor res u) = length res \/ length u < length res.
Proof.
  revert u; induction res as [|r res IH]; intros [|x u]; simpl; auto; try lia.
  destruct (IH u); lia.
Qed.

Lemma xor_length_le res u : length res <= length u -> length (Pbkdf2.xor res u) = length res.
Proof. intros H. destruct (xor_length res u); lia. Qed.

Definition keyed_by_digest (prf : Bhash) : Prop :=
  length (sha2_pass prf) = SHA512_OUTPUT_SIZE /\ length (Sha512.state (salt prf)) = 8.

Lemma input_keyed prf d : keyed_by_digest prf -> keyed_by_digest (input prf d).
Proof.
  intros [Hk Hs]. split; [exact Hk|].
  change (length (Sha512.state (Sha512.input (salt prf) d)) = 8).
  now rewrite Sha512Facts.input_state_length.
Qed.

Lemma iterate_prf_ok n (prf : Bhash) chunk u :
  keyed_by_digest prf -> length chunk <= BHASH_OUTPUT_SIZE ->
  exists c', Pbkdf2.iterate_prf n prf chunk u = Some c' /\ length c' = length chunk.
Proof.
  revert chunk u; induction n as [|n IH]; intros chunk u Hprf Hc;
    cbn [Pbkdf2.iterate_prf]; [eauto|].
  destruct (input_keyed prf u Hprf) as [Hk Hs].
  destruct (bhash_result_ok (input prf u) Hk Hs) as [u' [Hu' Hlen]].
  rewrite Hu'.
  assert (Hx : length (Pbkdf2.xor chunk u') = length chunk) by (apply xor_length_le; lia).
  destruct (IH (Pbkdf2.xor chunk u') u' Hprf) as [c' [Hc' Hl]]; [lia|].
  exists c'. split; [exact Hc'|]. lia.
Qed.

Lemma pbkdf2_body_ok i chunk (prf : Bhash) salt c :
  keyed_by_digest prf -> length chunk <= BHASH_OUTPUT_SIZE ->
  exists c', Pbkdf2.pbkdf2_body i chunk prf salt c = Some c' /\ length c' = length chunk.
Proof.
  intros Hprf Hc. unfold Pbkdf2.pbkdf2_body. cbv zeta.
  destruct (input_keyed _ (be_bytes 4 (Z.of_nat (i + 1) mod 2 ^ 32))
              (input_keyed prf salt Hprf)) as [Hk Hs].
  destruct (bhash_result_ok _ Hk Hs) as [u [Hu Hlen]]. rewrite Hu.
  assert (Hx : length (Pbkdf2.xor (map (fun _ => 0%Z) chunk) u) = length chunk).
  { rewrite xor_length_le; rewrite length_map; lia. }
  destruct (iterate_prf_ok (c - 1) prf (Pbkdf2.xor (map (fun _ => 0%Z) chunk) u) u Hprf)
    as [c' [Hc' Hl]]; [lia|].
  exists c'. split; [exact Hc'|]. lia.
Qed.

(** ** Generic list facts used by the driver *)

Lemma map_option_length {A B} (f : A -> option B) l ys :
  map_option f l = Some ys -> length ys = length l.
Proof.
  revert ys; induction l as [|x l IH]; intros ys H; simpl in H.
  - now injection H as <-.
  - destruct (f x); [|discriminate]. destruct (map_option f l) as [ys'|] eqn:E; [|discriminate].
    injection H as <-. simpl. now rewrite (IH ys').
Qed.

Lemma map_option_nth_error {A B} (f : A -> option B) l ys :
  map_option f l = Some ys -> forall i x, nth_error l i = Some x -> nth_error ys i = f x.
Proof.
  revert ys; induction l as [|y l IH]; intros ys H i x Hi; [now destruct i|].
  simpl in H. destruct (f y) as [b|] eqn:Ef; [|discriminate].
  destruct (map_option f l) as [ys'|] eqn:E; [|discriminate].
  injection H as <-. destruct i as [|i]; simpl in Hi |- *.
  - now injection Hi as ->.
  - now apply IH.
Qed.

Lemma map_option_Forall2 {A B} (f : A -> option B) (P : A -> B -> Prop) l :
  (forall x, In x l -> exists y, f x = Some y /\ P x y) ->
  exists ys, map_option f l = Some ys /\ Forall2 P l ys.
Proof.
  induction l as [|x l IH]; intros H; [exists []; split; constructor|].
  destruct (H x (or_introl eq_refl)) as [y [Hy Hp]].
  destruct IH as [ys [Hys Hf]]; [intros z Hz; apply H; now right|].
  exists (y :: ys). simpl. rewrite Hy, Hys. split; [reflexivity|]. now constructor.
Qed.

Lemma map_option_combine_irrelevant {A B C} (g : A * B -> option C) xs l1 l2 :
  length l1 = length l2 -> (forall a b b', g (a, b) = g (a, b')) ->
  map_option g (combine xs l1) = map_option g (combine xs l2).
Proof.
  revert xs l2; induction l1 as [|b l1 IH]; intros xs [|b' l2] Hl Hg; try discriminate.
  - now destruct xs.
  - destruct xs as [|a xs]; [reflexivity|]. simpl.
    rewrite (Hg a b b'), (IH xs l2); [reflexivity|simpl in Hl; lia|exact Hg].
Qed.

Lemma nth_error_combine {A B} (l1 : list A) (l2 : list B) i :
  nth_error (combine l1 l2) i =
  match nth_error l1 i, nth_error l2 i with
  | Some a, Some b => Some (a, b)
  | _, _ => None
  end.
Proof.
  revert l2 i; induction l1 as [|a l1 IH]; intros [|b l2] [|i]; simpl; auto.
  - now destruct (nth_error l1 i).
Qed.

Lemma map_snd_combine_seq {A} start (l : list A) :
  map snd (combine (seq start (length l)) l) = l.
Proof.
  revert start; induction l as [|x l IH]; intros start; [reflexivity|]. simpl. now rewrite IH.
Qed.

Lemma Forall2_length_concat {A B} (l : list (A * list Z)) (ys : list (list B)) :
  Forall2 (fun x y => length y = length (snd x)) l ys ->
  length (concat ys) = length (concat (map snd l)).
Proof.
  induction 1 as [|x y l ys Hxy _ IH]; [reflexivity|].
  simpl. rewrite !length_app, Hxy, IH. reflexivity.
Qed.

Lemma chunks_aux_spec {A} n count (l : list A) :
  length l <= n * count ->
  concat (Pbkdf2.chunks_aux n count l) = l /\
  Forall (fun c => length c <= n) (Pbkdf2.chunks_aux n count l).
Proof.
  revert l; induction count as [|count IH]; intros l Hl.
  - destruct l; [split; constructor|simpl in Hl; lia].
  - destruct (IH (skipn n l)) as [Hc Hf]; [rewrite length_skipn; lia|].
    simpl. rewrite Hc, firstn_skipn. split; [reflexivity|].
    constructor; [rewrite length_firstn; lia|exact Hf].
Qed.

Lemma chunks_spec {A} n (l : list A) :
  0 < n ->
  concat (Pbkdf2.chunks n l) = l /\ Forall (fun c => length c <= n) (Pbkdf2.chunks n l).
Proof.
  intros Hn. apply chunks_aux_spec.
  pose proof (Nat.div_mod (length l + n - 1) n ltac:(lia)) as Hd.
  pose proof (Nat.mod_upper_bound (length l + n - 1) n ltac:(lia)) as Hm.
  lia.
Qed.

(** ** [pbkdf2] keyed with a SHA-512 digest never panics and fills its buffer *)

Lemma pbkdf2_bhash_ok password salt c res :
  length password = SHA512_OUTPUT_SIZE ->
  exists out, Pbkdf2.pbkdf2 (F := Bhash) password salt c res = Some out /\
              length out = length res.
Proof.
  intros Hpw. unfold Pbkdf2.pbkdf2, new_varkey. cbv zeta.
  change (@key_size Bhash _) with SHA512_OUTPUT_SIZE.
  change (@output_size Bhash _) with BHASH_OUTPUT_SIZE.
  rewrite Hpw, Nat.eqb_refl.
  destruct (chunks_spec BHASH_OUTPUT_SIZE res ltac:(cbv; lia)) as [Hcat Hall].
  set (pieces := Pbkdf2.chunks BHASH_OUTPUT_SIZE res) in *.
  destruct (map_option_Forall2
              (fun '(i, chunk) => Pbkdf2.pbkdf2_body i chunk (new (M := Bhash) password) salt c)
              (fun x y => length y = length (snd x))
              (combine (seq 0 (length pieces)) pieces)) as [ys [Hys Hf]].
  - intros [i chunk] Hin. apply in_combine_r in Hin.
    apply pbkdf2_body_ok; [split; [exact Hpw|reflexivity]|].
    rewrite Forall_forall in Hall. now apply Hall.
  - rewrite Hys. exists (concat ys). split; [reflexivity|].
    rewrite (Forall2_length_concat _ _ Hf), map_snd_combine_seq, Hcat. reflexivity.
Qed.

(** ** The transpose reads inside the intermediate buffer *)

Lemma transpose_index_bound len i :
  i < len ->
  let stride := (len + BHASH_OUTPUT_SIZE - 1) / BHASH_OUTPUT_SIZE in
  0 < stride /\ (i mod stride) * BHASH_OUTPUT_SIZE + i / stride < stride * BHASH_OUTPUT_SIZE.
Proof.
  intros Hi stride. unfold BHASH_OUTPUT_SIZE, BHASH_WORDS in *. simpl Nat.mul in *.
  pose proof (Nat.div_mod (len + 32 - 1) 32 ltac:(lia)) as Hd.
  pose proof (Nat.mod_upper_bound (len + 32 - 1) 32 ltac:(lia)) as Hm.
  fold stride in Hd, Hm.
  assert (Hs : 0 < stride) by lia.
  split; [exact Hs|].
  pose proof (Nat.mod_upper_bound i stride ltac:(lia)) as Hmi.
  assert (Hq : i / stride < 32).
  { apply Nat.Div0.div_lt_upper_bound. lia. }
  nia.
Qed.

Lemma nth_error_seq_lt start len i : i < len -> nth_error (seq start len) i = Some (start + i).
Proof.
  revert start i; induction len as [|len IH]; intros start [|i] Hi; simpl; try lia.
  - f_equal; lia.
  - rewrite IH by lia. f_equal; lia.
Qed.

Lemma bcrypt_pbkdf_empty (passphrase salt : list Z) (rounds : N) :
  bcrypt_pbkdf passphrase salt rounds [] = Some [].
Proof.
  unfold bcrypt_pbkdf, Pbkdf2.pbkdf2, new_varkey. cbv zeta.
  change (@key_size Bhash _) with SHA512_OUTPUT_SIZE.
  rewrite Sha512Facts.digest_length. reflexivity.
Qed.

(** * The claims about [bcrypt_pbkdf] *)

(** C2: for every output buffer, with [stride = ceil(len / 32)] and
    [intermediate] the [stride * 32] bytes produced by [pbkdf2] on a zeroed
    buffer, the call returns normally, the result has exactly [len] bytes, and
    byte [i] of the result is [intermediate[(i mod stride) * 32 + i / stride]]
    for every [i < len]: each byte is written, whether or not [len] is a
    multiple of 32. *)
Theorem bcrypt_pbkdf_transpose (passphrase salt : list Z) (rounds : N) (output : list Z) :
  let len := length output in
  let stride := (len + BHASH_OUTPUT_SIZE - 1) / BHASH_OUTPUT_SIZE in
  exists intermediate res,
    Pbkdf2.pbkdf2 (F := Bhash) (Sha512.digest passphrase) salt (N.to_nat rounds)
      (repeat 0%Z (stride * BHASH_OUTPUT_SIZE)) = Some intermediate /\
    length intermediate = stride * BHASH_OUTPUT_SIZE /\
    bcrypt_pbkdf passphrase salt rounds output = Some res /\
    length res = len /\
    forall i, i < len -> exists b,
      nth_error intermediate ((i mod stride) * BHASH_OUTPUT_SIZE + i / stride) = Some b /\
      nth_error res i = Some b.
Proof.
  intros len stride.
  destruct (pbkdf2_bhash_ok (Sha512.digest passphrase) salt (N.to_nat rounds)
              (repeat 0%Z (stride * BHASH_OUTPUT_SIZE)) (Sha512Facts.digest_length _))
    as [gen [Hg Hgl]].
  rewrite repeat_length in Hgl.
  set (f := fun p : nat * Z => let '(i, _) := p in
              if Nat.eqb stride 0 then None else
              nth_error gen ((i mod stride) * BHASH_OUTPUT_SIZE + i / stride)).
  destruct (map_option_Forall2 f (fun _ _ => True) (combine (seq 0 len) output))
    as [res [Hres Hf]].
  { intros [i o] Hin. apply in_combine_l, in_seq in Hin.
    destruct (transpose_index_bound len i ltac:(lia)) as [Hs Hb]. fold stride in Hs, Hb.
    simpl. destruct (Nat.eqb_spec stride 0) as [E|_]; [lia|].
    destruct (nth_error gen ((i mod stride) * BHASH_OUTPUT_SIZE + i / stride)) eqn:E.
    - eauto.
    - apply nth_error_None in E. lia. }
  assert (Hcall : bcrypt_pbkdf passphrase salt rounds output = Some res).
  { unfold bcrypt_pbkdf. cbv zeta. fold len stride. rewrite Hg. exact Hres. }
  exists gen, res. do 3 (split; [assumption|]).
  assert (Hlen : length res = len).
  { rewrite (map_option_length _ _ _ Hres), length_combine, length_seq. lia. }
  split; [exact Hlen|].
  intros i Hi.
  destruct (transpose_index_bound len i Hi) as [Hs Hb]. fold stride in Hs, Hb.
  destruct (nth_error output i) as [o|] eqn:Ho; [|apply nth_error_None in Ho; lia].
  pose proof (map_option_nth_error _ _ _ Hres i (i, o)) as Hn.
  rewrite nth_error_combine, nth_error_seq_lt, Ho in Hn by exact Hi.
  specialize (Hn eq_refl). simpl in Hn.
  destruct (Nat.eqb_spec stride 0) as [E|_]; [lia|].
  destruct (nth_error gen ((i mod stride) * BHASH_OUTPUT_SIZE + i / stride)) as [b|] eqn:E.
  - now exists b.
  - apply nth_error_None in E. lia.
Qed.

(** C5 (corrected): a zero-length output buffer is not rejected: the call
    returns normally and derives zero bytes. *)
Theorem bcrypt_pbkdf_zero_length_accepted (passphrase salt : list Z) (rounds : N) :
  bcrypt_pbkdf passphrase salt rounds [] = Some [].
Proof. apply bcrypt_pbkdf_empty. Qed.

(** C5, counterexample: [bcrypt_pbkdf("password", "salt", 4, &mut [])]
    returns without error instead of rejecting the empty buffer. *)
Lemma bcrypt_pbkdf_zero_length_not_rejected :
  bcrypt_pbkdf (bytes_of_string "password") (bytes_of_string "salt") 4 [] <> None.
Proof. rewrite bcrypt_pbkdf_empty. discriminate. Qed.

(** C8: [bcrypt_pbkdf] is a function of [(passphrase, salt, rounds, len)]:
    two calls with the same passphrase, salt and rounds into buffers of the
    same length give the same bytes, whatever the buffers held before; and
    [bhash] on two 64-byte inputs gives one 32-byte value. *)
Theorem bcrypt_pbkdf_deterministic (passphrase salt : list Z) (rounds : N)
  (out1 out2 : list Z) (p64 s64 : list Z) :
  length out1 = length out2 ->
  length p64 = SHA512_OUTPUT_SIZE -> length s64 = SHA512_OUTPUT_SIZE ->
  bcrypt_pbkdf passphrase salt rounds out1 = bcrypt_pbkdf passphrase salt rounds out2 /\
  exists out, bhash p64 s64 = Some out /\ length out = BHASH_OUTPUT_SIZE.
Proof.
  intros Hl Hp Hs. split; [|now apply bhash_output_length].
  unfold bcrypt_pbkdf. cbv zeta. rewrite Hl.
  destruct (Pbkdf2.pbkdf2 _ _ _ _); [|reflexivity].
  apply map_option_combine_irrelevant; [exact Hl|]. intros; reflexivity.
Qed.

Lemma bcrypt_pbkdf_deterministic_witness :
  length (repeat 0%Z 16) = length (repeat 255%Z 16) /\
  length (repeat 0%Z 64) = SHA512_OUTPUT_SIZE /\
  (bcrypt_pbkdf (bytes_of_string "password") (bytes_of_string "salt") 4 (repeat 0%Z 16) =
   bcrypt_pbkdf (bytes_of_string "password") (bytes_of_string "salt") 4 (repeat 255%Z 16) /\
   exists out, bhash (repeat 0%Z 64) (repeat 0%Z 64) = Some out /\
               length out = BHASH_OUTPUT_SIZE).
Proof.
  split; [reflexivity|]. split; [reflexivity|].
  apply bcrypt_pbkdf_deterministic; reflexivity.
Defined.

(** * The claims about the [Mac] implementation and [bhash] *)

(** C6: the adaptor's [result] is [bhash(key, SHA512(s))], [s] the
    concatenation of the inputs given since [new(key)] or since the last
    [reset], however they were split across [input] calls. *)
Theorem bhash_mac_result_concat (key : list Z) (m : Bhash) (ds : list (list Z)) :
  result (fold_left input ds (new (M := Bhash) key)) = bhash key (Sha512.digest (concat ds)) /\
  result (fold_left input ds (reset m)) = bhash (sha2_pass m) (Sha512.digest (concat ds)).
Proof.
  unfold Sha512.digest. split.
  - change (new (M := Bhash) key) with (mkBhash key Sha512.default).
    rewrite fold_input_bhash. simpl. now rewrite Sha512Facts.fold_input_default.
  - change (reset m) with (mkBhash (sha2_pass m) (Sha512.reset (salt m))).
    rewrite fold_input_bhash. simpl. now rewrite Sha512Facts.fold_input_default.
Qed.

(** C7: [reset] gives back the state of [new] with the same key, so after
    any inputs a reset instance and a fresh one finalize alike. *)
Theorem bhash_mac_reset (m : Bhash) (ds : list (list Z)) :
  reset m = new (sha2_pass m) /\ sha2_pass (reset m) = sha2_pass m /\
  result (fold_left input ds (reset m)) =
  result (fold_left input ds (new (M := Bhash) (sha2_pass m))).
Proof.
  assert (H : reset m = new (M := Bhash) (sha2_pass m)) by reflexivity.
  split; [exact H|]. split; [reflexivity|]. now rewrite H.
Qed.

(** C9: [bhash] refuses (panics, here [None]) whenever one input is not 64
    bytes long, and on two 64-byte inputs it returns a 32-byte value. *)
Theorem bhash_length_contract (p s : list Z) :
  (length p <> SHA512_OUTPUT_SIZE \/ length s <> SHA512_OUTPUT_SIZE -> bhash p s = None) /\
  (length p = SHA512_OUTPUT_SIZE -> length s = SHA512_OUTPUT_SIZE ->
   exists out, bhash p s = Some out /\ length out = BHASH_OUTPUT_SIZE).
Proof. split; [apply bhash_bad_length|apply bhash_output_length]. Qed.

Lemma bhash_length_contract_witness :
  (length (repeat 0%Z 63) <> SHA512_OUTPUT_SIZE /\ bhash (repeat 0%Z 64) (repeat 0%Z 63) = None) /\
  (length (repeat 0%Z 64) = SHA512_OUTPUT_SIZE /\
   exists out, bhash (repeat 0%Z 64) (repeat 0%Z 64) = Some out /\
               length out = BHASH_OUTPUT_SIZE).
Proof.
  split; split.
  - simpl. discriminate.
  - apply (proj1 (bhash_length_contract (repeat 0%Z 64) (repeat 0%Z 63))).
    right. simpl. discriminate.
  - reflexivity.
  - apply (proj2 (bhash_length_contract (repeat 0%Z 64) (repeat 0%Z 64))); reflexivity.
Defined.

(** ** [bhash] against the reference algorithm *)

Lemma times_S {A} n (f : A -> A) x : times (S n) f x = times n f (f x).
Proof. reflexivity. Qed.

Lemma times_double_expand {A} (expand : A -> list Z -> A) n salt pass (st : A) :
  times n (fun st => expand (expand st salt) pass) st =
  reexpand_alternating expand true (2 * n) salt pass st.
Proof.
  revert st; induction n as [|n IH]; intros st; [reflexivity|].
  replace (2 * S n)%nat with (S (S (2 * n)))%nat by lia.
  rewrite times_S. apply IH.
Qed.

Lemma times_ext {A} (P : A -> Prop) n (f g : A -> A) x :
  P x -> (forall y, P y -> f y = g y /\ P (g y)) -> times n f x = times n g x.
Proof.
  revert x; induction n as [|n IH]; intros x Hx Hfg; [reflexivity|].
  rewrite !times_S. destruct (Hfg x Hx) as [-> Hg]. now apply IH.
Qed.

Lemma bhash_seed_words :
  for_nat BHASH_WORDS 0 1 (fun i cdata =>
    list_set cdata i (be_read_u32 (slice BHASH_SEED (i * 4) ((i + 1) * 4))))
    (repeat 0%uint63 BHASH_WORDS) = be_words BHASH_SEED.
Proof. vm_compute. reflexivity. Qed.

Lemma ecb_pass (enc : int -> int -> int * int) w0 w1 w2 w3 w4 w5 w6 w7 :
  for_nat (BHASH_WORDS / 2) 0 2 (fun i cdata =>
    let '(l, r) := enc (nth i cdata 0%uint63) (nth (i + 1) cdata 0%uint63) in
    list_set (list_set cdata i l) (i + 1) r) [w0; w1; w2; w3; w4; w5; w6; w7] =
  ecb_encrypt_pairs enc [w0; w1; w2; w3; w4; w5; w6; w7].
Proof.
  simpl.
  destruct (enc w0 w1) as [a0 b0]. simpl.
  destruct (enc w2 w3) as [a1 b1]. simpl.
  destruct (enc w4 w5) as [a2 b2]. simpl.
  destruct (enc w6 w7) as [a3 b3]. reflexivity.
Qed.

Lemma ecb_encrypt_pairs_length enc ws : length (ecb_encrypt_pairs enc ws) = length ws.
Proof.
  induction ws as [ws IH] using (induction_ltof1 _ (@length _)).
  destruct ws as [|l [|r rest]]; [reflexivity|reflexivity|].
  cbn [ecb_encrypt_pairs]. destruct (enc l r).
  cbn [length]. rewrite IH; [reflexivity|]. unfold ltof. simpl. lia.
Qed.

Lemma le_output_words w0 w1 w2 w3 w4 w5 w6 w7 :
  for_nat BHASH_WORDS 0 1 (fun i output =>
    le_write_u32 output (i * 4) (nth i [w0; w1; w2; w3; w4; w5; w6; w7] 0%uint63))
    (repeat 0%Z BHASH_OUTPUT_SIZE) =
  flat_map le_bytes [w0; w1; w2; w3; w4; w5; w6; w7].
Proof. reflexivity. Qed.

(** * The claims about [bhash] itself *)

(** C3: on two 64-byte inputs, [bhash] computes the five-step algorithm
    [bhash_reference]: salted expansion keyed by the salt with the password
    as keying material, 128 re-expansions alternating salt and password,
    the seed read as eight big-endian words, 64 ECB passes over the four
    word pairs in index order, and the words written little-endian. *)
Theorem bhash_refines_reference password64 salt64 :
  length password64 = SHA512_OUTPUT_SIZE -> length salt64 = SHA512_OUTPUT_SIZE ->
  bhash password64 salt64 = Some (bhash_reference password64 salt64).
Proof.
  intros Hp Hs. unfold bhash, bhash_reference. rewrite Hp, Hs.
  change (negb (Nat.eqb SHA512_OUTPUT_SIZE SHA512_OUTPUT_SIZE)) with false.
  cbv beta iota zeta.
  rewrite (times_double_expand Blowfish.bc_expand_key 64 salt64 password64).
  change (2 * 64)%nat with 128%nat.
  set (bf := reexpand_alternating Blowfish.bc_expand_key true 128 salt64 password64
               (Blowfish.salted_expand_key Blowfish.bc_init_state salt64 password64)).
  rewrite bhash_seed_words.
  assert (Hc : times 64 (fun cdata =>
      for_nat (BHASH_WORDS / 2) 0 2 (fun i cdata =>
        let '(l, r) := Blowfish.bc_encrypt bf (nth i cdata 0%uint63)
                                              (nth (i + 1) cdata 0%uint63) in
        list_set (list_set cdata i l) (i + 1) r) cdata) (be_words BHASH_SEED) =
    times 64 (ecb_encrypt_pairs (Blowfish.bc_encrypt bf)) (be_words BHASH_SEED)).
  { apply (times_ext (fun ws => length ws = BHASH_WORDS)); [reflexivity|].
    intros ws Hws.
    destruct ws as [|w0 [|w1 [|w2 [|w3 [|w4 [|w5 [|w6 [|w7 [|w8 ws]]]]]]]]];
      try discriminate Hws.
    split; [apply ecb_pass|]. now rewrite ecb_encrypt_pairs_length. }
  rewrite Hc.
  assert (Hl : length (times 64 (ecb_encrypt_pairs (Blowfish.bc_encrypt bf))
                         (be_words BHASH_SEED)) = BHASH_WORDS).
  { apply (times_invariant (fun ws => length ws = BHASH_WORDS)); [|reflexivity].
    intros ws Hws. now rewrite ecb_encrypt_pairs_length. }
  revert Hl.
  generalize (times 64 (ecb_encrypt_pairs (Blowfish.bc_encrypt bf)) (be_words BHASH_SEED)).
  intros ws Hws.
  destruct ws as [|w0 [|w1 [|w2 [|w3 [|w4 [|w5 [|w6 [|w7 [|w8 ws]]]]]]]]];
    try discriminate Hws.
  exact (f_equal Some (le_output_words w0 w1 w2 w3 w4 w5 w6 w7)).
Qed.

Lemma bhash_refines_reference_witness :
  length (map Z.of_nat (seq 0 64)) = SHA512_OUTPUT_SIZE /\
  length (repeat 0%Z 64) = SHA512_OUTPUT_SIZE /\
  bhash (map Z.of_nat (seq 0 64)) (repeat 0%Z 64) =
  Some (bhash_reference (map Z.of_nat (seq 0 64)) (repeat 0%Z 64)).
Proof.
  split; [reflexivity|]. split; [reflexivity|].
  apply bhash_refines_reference; reflexivity.
Defined.

Local Open Scope Z_scope.

(** C4: the two known answers of [test_bhash]: zero password and zero
    salt, and password [0x00 .. 0x3f] with zero salt. *)
Theorem bhash_known_answers :
  bhash (repeat 0%Z 64) (repeat 0%Z 64) =
    Some [0x46; 0x02; 0x86; 0xe9; 0x72; 0xfa; 0x83; 0x3f; 0x8b; 0x12; 0x83; 0xad;
          0x8f; 0xa9; 0x19; 0xfa; 0x29; 0xbd; 0xe2; 0x0e; 0x23; 0x32; 0x9e; 0x77;
          0x4d; 0x84; 0x22; 0xba; 0xc0; 0xa7; 0x92; 0x6c] /\
  bhash (map Z.of_nat (seq 0 64)) (repeat 0%Z 64) =
    Some [0xb0; 0xb2; 0x29; 0xdb; 0xc6; 0xba; 0xde; 0xf0; 0xe1; 0xda; 0x25; 0x27;
          0x47; 0x4a; 0x8b; 0x28; 0x88; 0x8f; 0x8b; 0x06; 0x14; 0x76; 0xfe; 0x80;
          0xc3; 0x22; 0x56; 0xe1; 0x14; 0x2d; 0xd0; 0x0d].
Proof. split; vm_compute; reflexivity. Qed.

(** * Embedded zero bytes *)

Definition pass_nul_wor : list Z := bytes_of_string "pass" ++ [0%Z] ++ bytes_of_string "wor".
Definition sa_nul_l : list Z := bytes_of_string "sa" ++ [0%Z] ++ bytes_of_string "l".

(** The vector of [test_openbsd_vectors] with embedded zero bytes. *)
Lemma bcrypt_pbkdf_pass_nul_wor :
  bcrypt_pbkdf pass_nul_wor sa_nul_l 4 (repeat 0%Z 16) =
  Some [0xc2; 0xbf; 0xfd; 0x9d; 0xb3; 0x8f; 0x65; 0x69;
        0xef; 0xef; 0x43; 0x72; 0xf4; 0xde; 0x83; 0xc0].
Proof. vm_compute. reflexivity. Qed.

Lemma bcrypt_pbkdf_pass_sa :
  bcrypt_pbkdf (bytes_of_string "pass") (bytes_of_string "sa") 4 (repeat 0%Z 16) =
  Some [0x9e; 0x76; 0xf5; 0x59; 0xc7; 0x9c; 0x37; 0x86;
        0xd8; 0xba; 0xf0; 0x7b; 0x11; 0x2d; 0x8e; 0x33].
Proof. vm_compute. reflexivity. Qed.

(** C10: [bcrypt_pbkdf("pass\0wor", "sa\0l", 4)] and
    [bcrypt_pbkdf("pass", "sa", 4)] into 16-byte buffers both return, with
    different bytes: the bytes after a zero byte are not dropped. *)
Theorem bcrypt_pbkdf_embedded_nul_significant :
  exists out1 out2,
    bcrypt_pbkdf pass_nul_wor sa_nul_l 4 (repeat 0%Z 16) = Some out1 /\
    bcrypt_pbkdf (bytes_of_string "pass") (bytes_of_string "sa") 4 (repeat 0%Z 16) = Some out2 /\
    out1 <> out2.
Proof.
  eexists; eexists. split; [exact bcrypt_pbkdf_pass_nul_wor|].
  split; [exact bcrypt_pbkdf_pass_sa|]. discriminate.
Qed.

(** * Further properties of [bcrypt_pbkdf] and of the [Mac] adaptor *)

Local Open Scope nat_scope.

(** ** The transpose as a map over the output indices *)

Lemma map_option_combine_seq_some {B C} (f : nat * B -> option C) (h : nat -> C) start
  (l : list B) :
  (forall i b, start <= i < start + length l -> f (i, b) = Some (h i)) ->
  map_option f (combine (seq start (length l)) l) = Some (map h (seq start (length l))).
Proof.
  revert start; induction l as [|b l IH]; intros start Hf; [reflexivity|].
  cbn [length seq combine map_option map].
  rewrite (Hf start b) by (simpl; lia).
  rewrite IH; [reflexivity|]. intros i b' Hi. apply Hf. simpl. lia.
Qed.

Lemma map_nth_seq_firstn {A} (l : list A) d n :
  n <= length l -> map (fun i => nth i l d) (seq 0 n) = firstn n l.
Proof.
  intros Hn. apply (nth_ext _ _ d d).
  - rewrite length_map, length_seq, length_firstn. lia.
  - intros k Hk. rewrite length_map, length_seq in Hk.
    rewrite nth_firstn. destruct (Nat.ltb_spec k n) as [_|]; [|lia].
    rewrite (nth_indep _ d (nth 0 l d)) by (rewrite length_map, length_seq; lia).
    rewrite (map_nth (fun i => nth i l d)), seq_nth by lia. reflexivity.
Qed.

(** [bcrypt_pbkdf] reads [generated] at [(i % stride) * 32 + i / stride] for
    each output index [i]. *)
Lemma bcrypt_pbkdf_as_map passphrase salt rounds output :
  let len := length output in
  let stride := (len + BHASH_OUTPUT_SIZE - 1) / BHASH_OUTPUT_SIZE in
  exists generated,
    Pbkdf2.pbkdf2 (F := Bhash) (Sha512.digest passphrase) salt (N.to_nat rounds)
      (repeat 0%Z (stride * BHASH_OUTPUT_SIZE)) = Some generated /\
    length generated = stride * BHASH_OUTPUT_SIZE /\
    bcrypt_pbkdf passphrase salt rounds output =
      Some (map (fun i => nth ((i mod stride) * BHASH_OUTPUT_SIZE + i / stride) generated 0%Z)
                (seq 0 len)).
Proof.
  intros len stride.
  destruct (pbkdf2_bhash_ok (Sha512.digest passphrase) salt (N.to_nat rounds)
              (repeat 0%Z (stride * BHASH_OUTPUT_SIZE)) (Sha512Facts.digest_length _))
    as [gen [Hg Hgl]].
  rewrite repeat_length in Hgl.
  exists gen. split; [exact Hg|]. split; [exact Hgl|].
  unfold bcrypt_pbkdf. cbv zeta. fold len stride. rewrite Hg. cbv beta iota.
  apply map_option_combine_seq_some. intros i b Hi.
  destruct (transpose_index_bound len i ltac:(lia)) as [Hs Hb]. fold stride in Hs, Hb.
  destruct (Nat.eqb_spec stride 0) as [E|_]; [lia|].
  apply nth_error_nth'. lia.
Qed.

(** ** [pbkdf2]'s iteration count *)


(** ** The intermediate buffer as a sequence of [pbkdf2] blocks *)

Lemma chunks_aux_repeat {A} (x : A) n s :
  Pbkdf2.chunks_aux n s (repeat x (s * n)) = repeat (repeat x n) s.
Proof.
  induction s as [|s IH]; [reflexivity|].
  cbn [Pbkdf2.chunks_aux repeat]. replace (S s * n) with (n + s * n) by lia.
  rewrite repeat_app, firstn_app, skipn_app, repeat_length, Nat.sub_diag.
  rewrite firstn_all2, skipn_all2 by (rewrite repeat_length; lia).
  cbn [firstn skipn app]. rewrite app_nil_r, IH. reflexivity.
Qed.

Lemma chunks_repeat {A} (x : A) n s :
  0 < n -> Pbkdf2.chunks n (repeat x (s * n)) = repeat (repeat x n) s.
Proof.
  intros Hn. unfold Pbkdf2.chunks. rewrite repeat_length.
  replace (s * n + n - 1) with (n - 1 + s * n) by lia.
  rewrite Nat.div_add, Nat.div_small, Nat.add_0_l by lia.
  apply chunks_aux_repeat.
Qed.

Lemma map_option_seq_repeat {B C} (f : nat * B -> option C) (blk : nat -> C) (c : B) start s :
  (forall i, f (i, c) = Some (blk i)) ->
  map_option f (combine (seq start s) (repeat c s)) = Some (map blk (seq start s)).
Proof.
  intros Hf. revert start; induction s as [|s IH]; intros start; [reflexivity|].
  cbn [seq repeat combine map_option map]. rewrite Hf, IH. reflexivity.
Qed.

(** With a 64-byte key, the [s * 32] bytes [pbkdf2] writes into a zeroed
    buffer are the blocks [0 .. s - 1], each of 32 bytes and independent of
    [s]. *)
Lemma pbkdf2_bhash_blocks password salt c :
  length password = SHA512_OUTPUT_SIZE ->
  exists blk : nat -> list Z,
    (forall i, Pbkdf2.pbkdf2_body i (repeat 0%Z BHASH_OUTPUT_SIZE) (new (M := Bhash) password)
                 salt c = Some (blk i) /\ length (blk i) = BHASH_OUTPUT_SIZE) /\
    forall s, Pbkdf2.pbkdf2 (F := Bhash) password salt c (repeat 0%Z (s * BHASH_OUTPUT_SIZE)) =
              Some (concat (map blk (seq 0 s))).
Proof.
  intros Hpw.
  set (prf := new (M := Bhash) password).
  assert (Hk : keyed_by_digest prf) by (split; [exact Hpw|reflexivity]).
  exists (fun i => match Pbkdf2.pbkdf2_body i (repeat 0%Z BHASH_OUTPUT_SIZE) prf salt c with
           | Some y => y | None => [] end).
  assert (Hb : forall i, exists y,
             Pbkdf2.pbkdf2_body i (repeat 0%Z BHASH_OUTPUT_SIZE) prf salt c = Some y /\
             length y = BHASH_OUTPUT_SIZE).
  { intros i. destruct (pbkdf2_body_ok i (repeat 0%Z BHASH_OUTPUT_SIZE) prf salt c Hk)
      as [y [Hy Hl]]; [rewrite repeat_length; lia|].
    exists y. rewrite repeat_length in Hl. now split. }
  split.
  - intros i. destruct (Hb i) as [y [Hy Hl]]. fold prf. now rewrite Hy.
  - intros s. unfold Pbkdf2.pbkdf2, new_varkey. cbv zeta.
    change (@key_size Bhash _) with SHA512_OUTPUT_SIZE.
    change (@output_size Bhash _) with BHASH_OUTPUT_SIZE.
    rewrite Hpw, Nat.eqb_refl. cbv beta iota. fold prf.
    rewrite chunks_repeat, repeat_length by (cbv; lia).
    rewrite (map_option_seq_repeat _ (fun i =>
               match Pbkdf2.pbkdf2_body i (repeat 0%Z BHASH_OUTPUT_SIZE) prf salt c with
               | Some y => y | None => [] end)); [reflexivity|].
    intros i. destruct (Hb i) as [y [Hy _]]. cbv beta iota. now rewrite Hy.
Qed.

Lemma length_concat_blocks (blk : nat -> list Z) n start s :
  (forall i, length (blk i) = n) -> length (concat (map blk (seq start s))) = s * n.
Proof.
  intros Hl. revert start; induction s as [|s IH]; intros start; [reflexivity|].
  simpl. rewrite length_app, Hl, IH. lia.
Qed.

Lemma nth_concat_blocks (blk : nat -> list Z) n start s j k :
  (forall i, length (blk i) = n) -> j < s -> k < n ->
  nth (j * n + k) (concat (map blk (seq start s))) 0%Z = nth k (blk (start + j)) 0%Z.
Proof.
  intros Hl. revert start j; induction s as [|s IH]; intros start j Hj Hk; [lia|].
  cbn [seq map concat]. destruct j as [|j].
  - rewrite app_nth1 by (rewrite Hl; lia). f_equal; f_equal; lia.
  - rewrite app_nth2 by (rewrite Hl; lia). rewrite Hl.
    replace (S j * n + k - n) with (j * n + k) by lia.
    rewrite IH by lia. f_equal; f_equal; lia.
Qed.

Lemma firstn_seq_min n start len : firstn n (seq start len) = seq start (Nat.min n len).
Proof.
  revert start len; induction n as [|n IH]; intros start [|len]; try reflexivity.
  simpl. now rewrite IH.
Qed.

Lemma transpose_index_parts len i :
  i < len ->
  let stride := (len + BHASH_OUTPUT_SIZE - 1) / BHASH_OUTPUT_SIZE in
  0 < stride /\ i mod stride < stride /\ i / stride < BHASH_OUTPUT_SIZE.
Proof.
  intros Hi stride. unfold BHASH_OUTPUT_SIZE, BHASH_WORDS in *. simpl Nat.mul in *.
  pose proof (Nat.div_mod (len + 32 - 1) 32 ltac:(lia)) as Hd.
  pose proof (Nat.mod_upper_bound (len + 32 - 1) 32 ltac:(lia)) as Hm.
  fold stride in Hd, Hm.
  assert (Hs : 0 < stride) by lia.
  split; [exact Hs|]. split; [apply Nat.mod_upper_bound; lia|].
  apply Nat.Div0.div_lt_upper_bound. lia.
Qed.





(** * Extra properties *)


(** An output of at most 32 bytes is the start of the first [pbkdf2] block:
    with one block the transpose copies it in order. *)
Theorem bcrypt_pbkdf_short_output (passphrase salt : list Z) (rounds : N) (output : list Z) :
  length output <= BHASH_OUTPUT_SIZE ->
  exists block,
    Pbkdf2.pbkdf2 (F := Bhash) (Sha512.digest passphrase) salt (N.to_nat rounds)
      (repeat 0%Z BHASH_OUTPUT_SIZE) = Some block /\
    length block = BHASH_OUTPUT_SIZE /\
    bcrypt_pbkdf passphrase salt rounds output = Some (firstn (length output) block).
Proof.
  intros Hlen.
  destruct (Nat.eq_dec (length output) 0) as [H0|H0].
  - destruct (pbkdf2_bhash_ok (Sha512.digest passphrase) salt (N.to_nat rounds)
                (repeat 0%Z BHASH_OUTPUT_SIZE) (Sha512Facts.digest_length _)) as [b [Hb Hbl]].
    exists b. rewrite repeat_length in Hbl. split; [exact Hb|]. split; [exact Hbl|].
    destruct output; [|discriminate]. apply bcrypt_pbkdf_empty.
  - destruct (bcrypt_pbkdf_as_map passphrase salt rounds output) as [g [Hg [Hgl Hres]]].
    assert (Hs : (length output + BHASH_OUTPUT_SIZE - 1) / BHASH_OUTPUT_SIZE = 1).
    { change BHASH_OUTPUT_SIZE with 32 in *.
      symmetry. apply Nat.div_unique with (r := length output - 1); lia. }
    rewrite Hs in Hg, Hgl, Hres. rewrite Nat.mul_1_l in Hg, Hgl.
    exists g. split; [exact Hg|]. split; [exact Hgl|]. rewrite Hres. f_equal.
    rewrite <- (map_nth_seq_firstn g 0%Z) by lia. apply map_ext_in. intros i Hi.
    apply in_seq in Hi. rewrite Nat.mod_1_r, Nat.div_1_r. reflexivity.
Qed.

Lemma bcrypt_pbkdf_short_output_witness :
  length (repeat 0%Z 20) <= BHASH_OUTPUT_SIZE /\
  exists block,
    Pbkdf2.pbkdf2 (F := Bhash) (Sha512.digest (bytes_of_string "password")) (bytes_of_string "salt")
      (N.to_nat 4) (repeat 0%Z BHASH_OUTPUT_SIZE) = Some block /\
    length block = BHASH_OUTPUT_SIZE /\
    bcrypt_pbkdf (bytes_of_string "password") (bytes_of_string "salt") 4 (repeat 0%Z 20) =
      Some (firstn (length (repeat 0%Z 20)) block).
Proof.
  split; [cbv; lia|].
  apply bcrypt_pbkdf_short_output. cbv; lia.
Defined.

(** Two outputs with the same number of 32-byte blocks agree on their
    common length: the shorter one is a prefix of the longer one. *)
Theorem bcrypt_pbkdf_same_stride_prefix (passphrase salt : list Z) (rounds : N)
  (out1 out2 : list Z) :
  length out1 <= length out2 ->
  (length out1 + BHASH_OUTPUT_SIZE - 1) / BHASH_OUTPUT_SIZE =
  (length out2 + BHASH_OUTPUT_SIZE - 1) / BHASH_OUTPUT_SIZE ->
  exists res1 res2,
    bcrypt_pbkdf passphrase salt rounds out1 = Some res1 /\
    bcrypt_pbkdf passphrase salt rounds out2 = Some res2 /\
    res1 = firstn (length out1) res2.
Proof.
  intros Hle Hs.
  destruct (bcrypt_pbkdf_as_map passphrase salt rounds out1) as [g1 [Hg1 [_ Hr1]]].
  destruct (bcrypt_pbkdf_as_map passphrase salt rounds out2) as [g2 [Hg2 [_ Hr2]]].
  rewrite Hs in Hg1, Hr1. rewrite Hg1 in Hg2. injection Hg2 as <-.
  do 2 eexists. split; [exact Hr1|]. split; [exact Hr2|].
  rewrite firstn_map, firstn_seq_min. f_equal. f_equal. lia.
Qed.

Lemma bcrypt_pbkdf_same_stride_prefix_witness :
  length (repeat 0%Z 40) <= length (repeat 0%Z 50) /\
  (length (repeat 0%Z 40) + BHASH_OUTPUT_SIZE - 1) / BHASH_OUTPUT_SIZE =
  (length (repeat 0%Z 50) + BHASH_OUTPUT_SIZE - 1) / BHASH_OUTPUT_SIZE /\
  exists res1 res2,
    bcrypt_pbkdf (bytes_of_string "password") (bytes_of_string "salt") 4 (repeat 0%Z 40) = Some res1 /\
    bcrypt_pbkdf (bytes_of_string "password") (bytes_of_string "salt") 4 (repeat 0%Z 50) = Some res2 /\
    res1 = firstn (length (repeat 0%Z 40)) res2.
Proof.
  split; [cbv; lia|]. split; [reflexivity|].
  apply bcrypt_pbkdf_same_stride_prefix; [cbv; lia|reflexivity].
Defined.

(** Output byte [i] is byte [i / stride] of block [i % stride] of [pbkdf2],
    block [j] being the [pbkdf2] block with index [j + 1]: 32 bytes that do
    not depend on the length of the output. *)
Theorem bcrypt_pbkdf_blocks (passphrase salt : list Z) (rounds : N) :
  exists blk : nat -> list Z,
    (forall j, Pbkdf2.pbkdf2_body j (repeat 0%Z BHASH_OUTPUT_SIZE)
                 (new (M := Bhash) (Sha512.digest passphrase)) salt (N.to_nat rounds) = Some (blk j) /\
               length (blk j) = BHASH_OUTPUT_SIZE) /\
    forall output,
      let stride := (length output + BHASH_OUTPUT_SIZE - 1) / BHASH_OUTPUT_SIZE in
      bcrypt_pbkdf passphrase salt rounds output =
        Some (map (fun i => nth (i / stride) (blk (i mod stride)) 0%Z) (seq 0 (length output))).
Proof.
  destruct (pbkdf2_bhash_blocks (Sha512.digest passphrase) salt (N.to_nat rounds)
              (Sha512Facts.digest_length _)) as [blk [Hblk Hall]].
  exists blk. split; [exact Hblk|].
  intros output stride.
  destruct (bcrypt_pbkdf_as_map passphrase salt rounds output) as [g [Hg [_ Hr]]].
  fold stride in Hg, Hr. rewrite Hall in Hg. injection Hg as <-.
  rewrite Hr. f_equal. apply map_ext_in. intros i Hi. apply in_seq in Hi.
  destruct (transpose_index_parts (length output) i ltac:(lia)) as [Hs [Hm Hq]].
  fold stride in Hs, Hm, Hq.
  apply nth_concat_blocks; [intros j; apply Hblk|exact Hm|exact Hq].
Qed.


(** A [Bhash] made by [new] with a 64-byte key, after any inputs, finalizes
    to exactly [OutputSize] = 32 bytes, the length
    [GenericArray::clone_from_slice] requires. *)
Theorem bhash_mac_result_output_size (key : list Z) (ds : list (list Z)) :
  length key = SHA512_OUTPUT_SIZE ->
  exists u, result (fold_left input ds (new (M := Bhash) key)) = Some u /\
            length u = output_size (M := Bhash).
Proof.
  intros Hk. change (new (M := Bhash) key) with (mkBhash key Sha512.default).
  rewrite fold_input_bhash, Sha512Facts.fold_input_default.
  apply bhash_result_ok; [exact Hk|].
  change (length (Sha512.state (Sha512.input Sha512.default (concat ds))) = 8).
  now rewrite Sha512Facts.input_state_length.
Qed.

Lemma bhash_mac_result_output_size_witness :
  length (Sha512.digest (bytes_of_string "password")) = SHA512_OUTPUT_SIZE /\
  exists u, result (fold_left input [bytes_of_string "salt"; [0%Z; 0%Z; 0%Z; 1%Z]]
                     (new (M := Bhash) (Sha512.digest (bytes_of_string "password")))) = Some u /\
            length u = output_size (M := Bhash).
Proof.
  split; [vm_compute; reflexivity|].
  apply bhash_mac_result_output_size. vm_compute. reflexivity.
Defined.
